(** * Taipan: the semantic analyzer and the C emitter

    A shallow embedding of [taipan/analyzer.py] and [taipan/emitter.py].
    Python exceptions are modelled by a [result] type, the analyzer's deque
    of symbol tables and the emitter's [code]/[libraries] attributes by
    explicit state passing. *)

From Stdlib Require Import String Ascii List ZArith Lia PrimFloat.
From stdpp Require Import gmap strings list.

Open Scope Z_scope.
Open Scope string_scope.
Open Scope list_scope.

(** ** Locations *)

(** Modelled from the spec: [taipan/utils.py] is not among the sources. The
    analyzer reads [location.start.line], so a location spans two
    positions, each with a line and a column. *)
Record Position := mkPosition { line : Z; column : Z }.

Record Location := mkLocation { file : string; start : Position; end_ : Position }.

(** ** Exceptions *)

(** The exceptions the two passes can raise: the compiler's own
    [TaipanSemanticError], and the Python built-ins behind [assert False],
    [text[0]], [deque.pop] and [FUNCTION_MAPPING[name]]. *)
Inductive Exception :=
| TaipanSemanticError (location : Location) (message : string)
| AssertionError
| IndexError
| KeyError (key : string).

Inductive result (A : Type) :=
| Ok (a : A)
| Raise (e : Exception).
Arguments Ok {A} a.
Arguments Raise {A} e.

Definition bind {A B} (m : result A) (k : A -> result B) : result B :=
  match m with
  | Ok a => k a
  | Raise e => Raise e
  end.

Notation "x <- m ;; k" := (bind m (fun x => k))
  (at level 100, m at next level, right associativity).
Notation "m ;;; k" := (bind m (fun _ => k))
  (at level 100, right associativity).


(** ** The abstract syntax tree *)

(** Modelled from the spec: [taipan/ast.py] is not among the sources. The
    node classes and their fields are the ones the analyzer and the emitter
    match on and read; an operator is an enumeration member of which only
    the [value], its literal spelling, is read. Nodes other than
    [Identifier] also carry a location, which neither pass reads. *)
Record Operator := mkOperator { value : string }.

Record Identifier := mkIdentifier { name : string; location : Location }.

Inductive Expression :=
| Number (value : float)
| IdentifierExpression (identifier : Identifier)
| UnaryExpression (operator : Operator) (value : Expression)
| BinaryExpression (left_ : Expression) (operator : Operator) (right_ : Expression)
| Comparison (left_ : Expression) (operator : Operator) (right_ : Expression)
| ParentheseExpression (value : Expression).

(** The [value] of a [Print] is a [String] node or an expression. *)
Inductive PrintValue :=
| String_ (value : string)
| Expression_ (expression : Expression).

(** Modelled from the spec: [taipan/symbol_table.py] is not among the
    sources. A table maps a declared name to its declaration location and
    [lookup] returns the location or [None]. *)
Abbreviation SymbolTable := (gmap string Location).

Definition lookup_symbol (table : SymbolTable) (name : string) : option Location :=
  table !! name.

Inductive Block :=
| mkBlock (statements : list Statement) (symbol_table : SymbolTable)
with Statement :=
| BlockStatement (block : Block)
| If (condition : Expression) (block : Block)
| While (condition : Expression) (block : Block)
| Input (identifier : Identifier)
| Print (value : PrintValue)
| Assignment (identifier : Identifier) (expression : Expression)
| Declaration (identifier : Identifier) (expression : option Expression).

Definition statements (b : Block) : list Statement :=
  match b with mkBlock ss _ => ss end.

Definition symbol_table (b : Block) : SymbolTable :=
  match b with mkBlock _ t => t end.

Record Program := mkProgram { block : Block }.

Record AST := mkAST { root : Program }.

(** Induction over statements and blocks together, through the statement
    list of a block. *)
Section StatementInduction.

Variable P : Statement -> Prop.
Variable Q : Block -> Prop.

Hypothesis HmkBlock : forall ss t, Forall P ss -> Q (mkBlock ss t).
Hypothesis HBlockStatement : forall b, Q b -> P (BlockStatement b).
Hypothesis HIf : forall c b, Q b -> P (If c b).
Hypothesis HWhile : forall c b, Q b -> P (While c b).
Hypothesis HInput : forall i, P (Input i).
Hypothesis HPrint : forall v, P (Print v).
Hypothesis HAssignment : forall i e, P (Assignment i e).
Hypothesis HDeclaration : forall i e, P (Declaration i e).

Fixpoint Statement_Block_ind (s : Statement) : P s :=
  match s with
  | BlockStatement b => HBlockStatement b (Block_Statement_ind b)
  | If c b => HIf c b (Block_Statement_ind b)
  | While c b => HWhile c b (Block_Statement_ind b)
  | Input i => HInput i
  | Print v => HPrint v
  | Assignment i e => HAssignment i e
  | Declaration i e => HDeclaration i e
  end
with Block_Statement_ind (b : Block) : Q b :=
  match b with
  | mkBlock ss t =>
      HmkBlock ss t
        ((fix all (l : list Statement) : Forall P l :=
            match l with
            | [] => @List.Forall_nil _ P
            | s :: l0 => @List.Forall_cons _ P s l0 (Statement_Block_ind s) (all l0)
            end) ss)
  end.

End StatementInduction.

(** ** The analyzer *)

Module Analyzer.

(** The analyzer's state: [self.symbol_tables], a deque used as a stack.
    [append] adds at the right end, [pop] removes from it. *)
Abbreviation deque := (list SymbolTable).

Definition append (symbol_tables : deque) (table : SymbolTable) : deque :=
  symbol_tables ++ [table].

(** [deque.pop()] raises [IndexError] on an empty deque. *)
Definition pop (symbol_tables : deque) : result deque :=
  match symbol_tables with
  | [] => Raise IndexError
  | _ => Ok (removelast symbol_tables)
  end.

(** The body of the [for table in reversed(symbol_tables)] loop: a table
    without the name, or with a declaration that is not on an earlier
    line, passes the search on to the next table. *)
Fixpoint is_defined_loop (tables : list SymbolTable) (identifier : Identifier) : bool :=
  match tables with
  | [] => false
  | table :: tables' =>
      match lookup_symbol table (name identifier) with
      | None => is_defined_loop tables' identifier
      | Some symbol =>
          if line (start (location identifier)) >? line (start symbol)
          then true
          else is_defined_loop tables' identifier
      end
  end.

Definition _is_defined (symbol_tables : deque) (identifier : Identifier) : bool :=
  is_defined_loop (rev symbol_tables) identifier.

Definition not_defined_message (identifier : Identifier) : string :=
  "Identifier '" +:+ name identifier +:+ "' is not defined".

Fixpoint _analyze_expression (symbol_tables : deque) (expression : Expression)
  : result unit :=
  match expression with
  | Number _ => Ok tt
  | IdentifierExpression identifier =>
      if negb (_is_defined symbol_tables identifier)
      then Raise (TaipanSemanticError (location identifier)
                    (not_defined_message identifier))
      else Ok tt
  | UnaryExpression _ value => _analyze_expression symbol_tables value
  | BinaryExpression left_ _ right_
  | Comparison left_ _ right_ =>
      _analyze_expression symbol_tables left_ ;;;
      _analyze_expression symbol_tables right_
  | ParentheseExpression value => _analyze_expression symbol_tables value
  end.

(** [_analyze_statement] returns the deque it leaves behind. The [Block]
    case is [analyze_block], since [If] and [While] pass their [block]
    back to [_analyze_statement]. *)
Fixpoint _analyze_statement (statement : Statement) (symbol_tables : deque)
  : result deque :=
  match statement with
  | BlockStatement block => analyze_block block symbol_tables
  | If condition block
  | While condition block =>
      _analyze_expression symbol_tables condition ;;;
      analyze_block block symbol_tables
  | Input identifier =>
      _analyze_expression symbol_tables (IdentifierExpression identifier) ;;;
      Ok symbol_tables
  | Print value =>
      match value with
      | String_ _ => Ok symbol_tables
      | Expression_ expression =>
          _analyze_expression symbol_tables expression ;;;
          Ok symbol_tables
      end
  | Assignment identifier expression =>
      _analyze_expression symbol_tables (IdentifierExpression identifier) ;;;
      _analyze_expression symbol_tables expression ;;;
      Ok symbol_tables
  | Declaration _ _ => Ok symbol_tables
  end
with analyze_block (block : Block) (symbol_tables : deque) : result deque :=
  match block with
  | mkBlock statements symbol_table =>
      symbol_tables <-
        (fix each (statements : list Statement) (symbol_tables : deque) :=
           match statements with
           | [] => Ok symbol_tables
           | statement :: statements' =>
               symbol_tables <- _analyze_statement statement symbol_tables ;;
               each statements' symbol_tables
           end) statements (append symbol_tables symbol_table) ;;
      pop symbol_tables
  end.

(** The [for statement in statement.statements] loop, by name. *)
Fixpoint analyze_statements (statements : list Statement) (symbol_tables : deque)
  : result deque :=
  match statements with
  | [] => Ok symbol_tables
  | statement :: statements' =>
      symbol_tables <- _analyze_statement statement symbol_tables ;;
      analyze_statements statements' symbol_tables
  end.

(** [Analyzer.analyze]: a fresh analyzer, with an empty deque. *)
Definition analyze (ast : AST) : result unit :=
  _analyze_statement (BlockStatement (block (root ast))) [] ;;;
  Ok tt.

End Analyzer.

(** ** The emitter *)

Module Emitter.

Definition newline : string := String (ascii_of_nat 10) "".
Definition double_quote : string := String (ascii_of_nat 34) "".

Record Function := mkFunction {
  function_name : string;
  function_template : string;
  function_libraries : list string
}.

Definition FUNCTIONS : list Function :=
  [ mkFunction "print" "print.j2" ["stdio.h"];
    mkFunction "input" "input.j2" ["stdio.h"] ].

(** [{func.name: func for func in FUNCTIONS}]: a later entry of the same
    name would replace an earlier one. *)
Definition FUNCTION_MAPPING : gmap string Function :=
  foldl (fun mapping func => <[function_name func := func]> mapping) ∅ FUNCTIONS.

(** The keyword arguments handed to a template. *)
Inductive TemplateValue :=
| StrValue (s : string)
| BoolValue (b : bool).

Abbreviation kwargs := (list (string * TemplateValue)).

(** The emitter's state: [self.code] and [self.libraries]. *)
Record Emitter := mkEmitter { code : string; libraries : gset string }.

Definition write (text : string) (self : Emitter) : Emitter :=
  mkEmitter (code self +:+ text) (libraries self).

Section Services.

(** Python's [str] on a float, and the rendering of a named template of
    the [taipan] package with its keyword arguments by jinja2: both are
    outside the sources and left open. *)
Variable str : float -> string.
Variable render : string -> kwargs -> string.

(** The order in which Python walks a set: it is not specified and may
    differ from one run to the next, so it is left open as well. What is
    known of it, that it lists each member of the set once, is a hypothesis
    of the theorems that need it. *)
Variable walk : gset string -> list string.

Fixpoint to_string (node : Expression) : result string :=
  match node with
  | Number value => Ok (str value)
  | IdentifierExpression identifier => Ok (name identifier)
  | BinaryExpression left_ operator right_ =>
      l <- to_string left_ ;;
      r <- to_string right_ ;;
      Ok (l +:+ value operator +:+ r)
  | UnaryExpression operator value_ =>
      text <- to_string value_ ;;
      match text with
      | EmptyString => Raise IndexError
      | String first _ => Ok (value operator +:+ String first "")
      end
  | Comparison _ _ _
  | ParentheseExpression _ => Raise AssertionError
  end.

Definition emit_function (name : string) (arguments : kwargs) (self : Emitter)
  : result Emitter :=
  match FUNCTION_MAPPING !! name with
  | None => Raise (KeyError name)
  | Some func =>
      let libraries :=
        foldl (fun libraries library => libraries ∪ {[library]})
              (libraries self) (function_libraries func) in
      Ok (mkEmitter (code self +:+ render (function_template func) arguments)
                    libraries)
  end.

(** [emit] on an [Identifier] node. *)
Definition emit_identifier (node : Identifier) (self : Emitter) : Emitter :=
  write (name node) self.

(** [emit] on a [String] node. *)
Definition emit_string (node : string) (self : Emitter) : Emitter :=
  write (double_quote +:+ node +:+ double_quote) self.

(** [emit] on the expression nodes. [ParentheseExpression] has no case
    of its own and falls to [assert False]. *)
Fixpoint emit_expression (node : Expression) (self : Emitter) : result Emitter :=
  match node with
  | BinaryExpression left_ operator right_
  | Comparison left_ operator right_ =>
      self <- emit_expression left_ self ;;
      emit_expression right_ (write (value operator) self)
  | UnaryExpression operator value_ =>
      emit_expression value_ (write (value operator) self)
  | IdentifierExpression identifier => Ok (emit_identifier identifier self)
  | Number value => Ok (write (str value) self)
  | ParentheseExpression _ => Raise AssertionError
  end.

(** [emit] on the statement nodes and, as [emit_block], on a [Block]. *)
Fixpoint emit_statement (node : Statement) (self : Emitter) : result Emitter :=
  match node with
  | BlockStatement block => emit_block block self
  | If condition block =>
      self <- emit_expression condition (write "if(" self) ;;
      self <- emit_block block (write "){" self) ;;
      Ok (write "}" self)
  | While condition block =>
      self <- emit_expression condition (write "while(" self) ;;
      self <- emit_block block (write "){" self) ;;
      Ok (write "}" self)
  | Input identifier =>
      emit_function "input" [("identifier", StrValue (name identifier))] self
  | Print value =>
      match value with
      | String_ value =>
          emit_function "print"
            [("value", StrValue value); ("is_number", BoolValue false)] self
      | Expression_ expression =>
          value <- to_string expression ;;
          emit_function "print"
            [("value", StrValue value); ("is_number", BoolValue true)] self
      end
  | Declaration identifier expression =>
      let self := emit_identifier identifier (write "double " self) in
      let self := write "=" self in
      self <- match expression with
              | Some expression => emit_expression expression self
              | None => Ok (write "0.0" self)
              end ;;
      Ok (write ";" self)
  | Assignment identifier expression =>
      let self := emit_identifier identifier self in
      self <- emit_expression expression (write "=" self) ;;
      Ok (write ";" self)
  end
with emit_block (node : Block) (self : Emitter) : result Emitter :=
  match node with
  | mkBlock statements _ =>
      (fix each (statements : list Statement) (self : Emitter) :=
         match statements with
         | [] => Ok self
         | statement :: statements' =>
             self <- emit_statement statement self ;;
             each statements' self
         end) statements self
  end.

(** The [for statement in node.statements] loop, by name. *)
Fixpoint emit_statements (statements : list Statement) (self : Emitter)
  : result Emitter :=
  match statements with
  | [] => Ok self
  | statement :: statements' =>
      self <- emit_statement statement self ;;
      emit_statements statements' self
  end.

Definition emit_main (self : Emitter) : Emitter :=
  mkEmitter ("int main(){" +:+ code self +:+ "return 0;}" +:+ newline)
            (libraries self).

Definition include (library : string) : string :=
  "#include<" +:+ library +:+ ">" +:+ newline.

(** [for library in self.libraries]: the libraries come in the order in
    which the set is walked, and each directive goes in front of the code
    so far. *)
Definition emit_header (self : Emitter) : Emitter :=
  foldl (fun self library =>
           mkEmitter (include library +:+ code self) (libraries self))
        self (walk (libraries self)).

Definition emit_program (node : Program) (self : Emitter) : result Emitter :=
  self <- emit_block (block node) self ;;
  Ok (emit_header (emit_main self)).

(** [Emitter()]: no code, no libraries. *)
Definition __init__ : Emitter := mkEmitter "" ∅.

End Services.

End Emitter.

(** ** Scoping: what the analyzer is checked against *)

Module Scoping.
Import Analyzer.

(** A name is visible at a use when some table of the enclosing blocks
    holds it with a declaration on a strictly earlier line. *)
Definition visible (scopes : deque) (identifier : Identifier) : Prop :=
  exists table symbol,
    table ∈ scopes /\
    lookup_symbol table (name identifier) = Some symbol /\
    (line (start symbol) < line (start (location identifier)))%Z.

(** The identifiers of an expression, in the order of the traversal. *)
Fixpoint expression_identifiers (expression : Expression) : list Identifier :=
  match expression with
  | Number _ => []
  | IdentifierExpression identifier => [identifier]
  | UnaryExpression _ value_ => expression_identifiers value_
  | BinaryExpression left_ _ right_
  | Comparison left_ _ right_ =>
      expression_identifiers left_ ++ expression_identifiers right_
  | ParentheseExpression value_ => expression_identifiers value_
  end.

Definition at_scopes (scopes : deque) (identifiers : list Identifier)
  : list (deque * Identifier) :=
  map (fun identifier => (scopes, identifier)) identifiers.

(** The identifier uses of a statement, each with the symbol tables of
    the blocks that enclose it, outermost first. With [initializers] the
    uses inside declaration initializers are listed too. *)
Fixpoint statement_uses (initializers : bool) (statement : Statement) (scopes : deque)
  : list (deque * Identifier) :=
  match statement with
  | BlockStatement block => block_uses initializers block scopes
  | If condition block
  | While condition block =>
      at_scopes scopes (expression_identifiers condition)
      ++ block_uses initializers block scopes
  | Input identifier => [(scopes, identifier)]
  | Print (String_ _) => []
  | Print (Expression_ expression) =>
      at_scopes scopes (expression_identifiers expression)
  | Assignment identifier expression =>
      (scopes, identifier) :: at_scopes scopes (expression_identifiers expression)
  | Declaration _ (Some expression) =>
      if initializers
      then at_scopes scopes (expression_identifiers expression)
      else []
  | Declaration _ None => []
  end
with block_uses (initializers : bool) (block : Block) (scopes : deque)
  : list (deque * Identifier) :=
  match block with
  | mkBlock statements symbol_table =>
      (fix each (statements : list Statement) :=
         match statements with
         | [] => []
         | statement :: statements' =>
             statement_uses initializers statement (scopes ++ [symbol_table])
             ++ each statements'
         end) statements
  end.

Definition statements_uses (initializers : bool) (statements : list Statement)
    (scopes : deque) : list (deque * Identifier) :=
  flat_map (fun statement => statement_uses initializers statement scopes) statements.

Definition program_uses (initializers : bool) (ast : AST) : list (deque * Identifier) :=
  block_uses initializers (block (root ast)) [].

Definition undefined_use (use : deque * Identifier) : bool :=
  negb (_is_defined (fst use) (snd use)).

Definition undefined_error (identifier : Identifier) : Exception :=
  TaipanSemanticError (location identifier)
    ("Identifier '" +:+ name identifier +:+ "' is not defined").

(** What the traversal comes to: the first undefined use, if any, is
    reported. *)
Definition first_undefined {A} (uses : list (deque * Identifier)) (a : A) : result A :=
  match find undefined_use uses with
  | None => Ok a
  | Some use => Raise (undefined_error (snd use))
  end.


End Scoping.

(** ** Rendering: what the emitter is checked against *)

Module Rendering.
Import Emitter.

Section Services.

Variable str : float -> string.
Variable render : string -> kwargs -> string.

(** Emitting [node] appends exactly [text], whatever was emitted before,
    and requires no library. *)
Definition emits (node : Expression) (text : string) : Prop :=
  forall self, emit_expression str node self = Ok (write text self).

(** The text of an expression, put together from the texts of its
    parts; [emit_expression] is compared with it. *)
Fixpoint expression_text (node : Expression) : result string :=
  match node with
  | Number value => Ok (str value)
  | IdentifierExpression identifier => Ok (name identifier)
  | UnaryExpression operator value_ =>
      text <- expression_text value_ ;;
      Ok (value operator +:+ text)
  | BinaryExpression left_ operator right_
  | Comparison left_ operator right_ =>
      l <- expression_text left_ ;;
      r <- expression_text right_ ;;
      Ok (l +:+ value operator +:+ r)
  | ParentheseExpression _ => Raise AssertionError
  end.

End Services.

(** The expressions [to_string] has a case for, all the way down. *)
Fixpoint flattenable (node : Expression) : bool :=
  match node with
  | Number _ | IdentifierExpression _ => true
  | BinaryExpression left_ _ right_ => flattenable left_ && flattenable right_
  | UnaryExpression _ value_ => flattenable value_
  | Comparison _ _ _ | ParentheseExpression _ => false
  end.

(** Every identifier [to_string] can reach has a name of at least one
    character, as the lexer's identifiers do. *)
Fixpoint named (node : Expression) : bool :=
  match node with
  | Number _ => true
  | IdentifierExpression identifier =>
      match name identifier with EmptyString => false | _ => true end
  | BinaryExpression left_ _ right_ => named left_ && named right_
  | UnaryExpression _ value_ => named value_
  | Comparison _ _ _ | ParentheseExpression _ => true
  end.

(** The libraries of the builtin functions a program calls. *)
Definition function_requires (name : string) : gset string :=
  match FUNCTION_MAPPING !! name with
  | Some func => list_to_set (function_libraries func)
  | None => ∅
  end.

Fixpoint statement_requires (statement : Statement) : gset string :=
  match statement with
  | BlockStatement block
  | If _ block
  | While _ block => block_requires block
  | Input _ => function_requires "input"
  | Print _ => function_requires "print"
  | Assignment _ _
  | Declaration _ _ => ∅
  end
with block_requires (block : Block) : gset string :=
  match block with
  | mkBlock statements _ =>
      (fix each (statements : list Statement) : gset string :=
         match statements with
         | [] => ∅
         | statement :: statements' => statement_requires statement ∪ each statements'
         end) statements
  end.

Fixpoint statements_requires (statements : list Statement) : gset string :=
  match statements with
  | [] => ∅
  | statement :: statements' =>
      statement_requires statement ∪ statements_requires statements'
  end.

(** The include directives of a list of libraries, one after another. *)
Definition directives (libraries : list string) : string :=
  foldr (fun library text => include library +:+ text) "" libraries.

(** The entry-point function around the text of the statements. *)
Definition entry_point (body : string) : string :=
  "int main(){" +:+ body +:+ "return 0;}".

End Rendering.

(** ** Sample programs *)

Module Samples.
Import Analyzer Emitter.

Definition at_line (line : Z) (column : Z) (width : Z) : Location :=
  mkLocation "file.tp" (mkPosition line column) (mkPosition line (column + width)).

Definition a_at (line column : Z) : Identifier := mkIdentifier "a" (at_line line column 1).
Definition b_at (line column : Z) : Identifier := mkIdentifier "b" (at_line line column 1).

Definition declares (identifier : Identifier) : SymbolTable :=
  {[ name identifier := location identifier ]}.

Definition print_ (identifier : Identifier) : Statement :=
  Print (Expression_ (IdentifierExpression identifier)).

Definition program (block : Block) : AST := mkAST (mkProgram block).

(** [test_undeclared]: a block that prints [a] on line 2. *)
Definition undeclared : AST :=
  program (mkBlock [print_ (a_at 2 11)] ∅).

(** [test_defined_after]: [print a] on line 2, [let a = 1] on line 3. *)
Definition defined_after : AST :=
  program (mkBlock [print_ (a_at 2 11); Declaration (a_at 3 9) (Some (Number 1))]
             (declares (a_at 3 9))).

(** [test_higher_scope_declaration]: [let a = 1] in a nested block,
    [print a] after it. *)
Definition higher_scope_declaration : AST :=
  program (mkBlock
             [BlockStatement
                (mkBlock [Declaration (a_at 3 13) (Some (Number 1))]
                   (declares (a_at 3 13)));
              print_ (a_at 5 11)]
             ∅).

(** [test_higher_scope_usage]: [let a = 1], then a nested block that
    prints [a]. *)
Definition higher_scope_usage : AST :=
  program (mkBlock
             [Declaration (a_at 2 9) (Some (Number 1));
              BlockStatement (mkBlock [print_ (a_at 4 15)] ∅)]
             (declares (a_at 2 9))).

(** [test_in_between_scope]: [let a = 1], an empty block, [print a]. *)
Definition in_between_scope : AST :=
  program (mkBlock
             [Declaration (a_at 2 9) (Some (Number 1));
              BlockStatement (mkBlock [] ∅);
              print_ (a_at 4 11)]
             (declares (a_at 2 9))).

(** [test_redefinition_inner_scope]: [let a = 1], a nested block with
    [let a = 2], then [print a]. *)
Definition redefinition_inner_scope : AST :=
  program (mkBlock
             [Declaration (a_at 2 9) (Some (Number 1));
              BlockStatement
                (mkBlock [Declaration (a_at 4 13) (Some (Number 2))]
                   (declares (a_at 4 13)));
              print_ (a_at 6 11)]
             (declares (a_at 2 9))).

(** A block whose only statement is [let a = b] on line 2: [b] is
    declared nowhere. *)
Definition undeclared_initializer : AST :=
  program (mkBlock
             [Declaration (a_at 2 9) (Some (IdentifierExpression (b_at 2 13)))]
             (declares (a_at 2 9))).

(** A block whose only statement is [let a = a] on line 2. *)
Definition self_initializer : Statement :=
  Declaration (a_at 2 9) (Some (IdentifierExpression (a_at 2 13))).

Definition self_referential : AST :=
  program (mkBlock [self_initializer] (declares (a_at 2 9))).

(** The program with an empty root block. *)
Definition empty : Program := mkProgram (mkBlock [] ∅).

(** Stand-ins for the two services in the closed examples: every float
    prints as [1.0], and a template renders as its name followed by the
    string arguments. *)
Definition sample_str (value : float) : string := "1.0".

(** Two ways of walking a set: in the order of [elements], and in the
    opposite order. *)
Definition sample_walk (libraries : gset string) : list string := elements libraries.

Definition backward_walk (libraries : gset string) : list string :=
  rev (elements libraries).

Definition sample_render (template : string) (arguments : kwargs) : string :=
  template +:+
  String.concat ""
    (map (fun argument =>
            match snd argument with
            | StrValue s => "(" +:+ s +:+ ")"
            | BoolValue _ => ""
            end) arguments) +:+ ";".

(** [input a], [print a], [print "a"]: three builtin statements. *)
Definition builtins : Program :=
  mkProgram (mkBlock [Input (a_at 2 7); print_ (a_at 3 7); Print (String_ "a")] ∅).

(** [print a] on line 2 and [print b] on line 3, neither declared. *)
Definition two_undeclared : AST :=
  program (mkBlock [print_ (a_at 2 11); print_ (b_at 3 11)] ∅).

(** [print (a)]: accepted by the analyzer under a declaration of [a]. *)
Definition print_parenthese : Program :=
  mkProgram
    (mkBlock
       [Print (Expression_ (ParentheseExpression (IdentifierExpression (a_at 3 8))))]
       (declares (a_at 2 9))).

Definition minus : Operator := mkOperator "-".
Definition plus : Operator := mkOperator "+".
Definition less : Operator := mkOperator "<".

End Samples.

(** ** Further notions for the two traversals *)

Module Erasure.

(** The program with every declaration initializer removed. *)
Fixpoint erase_statement (statement : Statement) : Statement :=
  match statement with
  | BlockStatement block => BlockStatement (erase_block block)
  | If condition block => If condition (erase_block block)
  | While condition block => While condition (erase_block block)
  | Declaration identifier _ => Declaration identifier None
  | Input _ | Print _ | Assignment _ _ => statement
  end
with erase_block (block : Block) : Block :=
  match block with
  | mkBlock statements symbol_table =>
      mkBlock
        ((fix each (statements : list Statement) : list Statement :=
            match statements with
            | [] => []
            | statement :: statements' => erase_statement statement :: each statements'
            end) statements)
        symbol_table
  end.

Definition erase_initializers (ast : AST) : AST :=
  mkAST (mkProgram (erase_block (block (root ast)))).

End Erasure.

Module Texts.
Import Emitter Rendering.

(** A [ParentheseExpression] somewhere in the expression. *)
Fixpoint has_parenthese (node : Expression) : bool :=
  match node with
  | Number _ | IdentifierExpression _ => false
  | UnaryExpression _ value_ => has_parenthese value_
  | BinaryExpression left_ _ right_
  | Comparison left_ _ right_ => has_parenthese left_ || has_parenthese right_
  | ParentheseExpression _ => true
  end.

(** No [UnaryExpression] anywhere in the expression. *)
Fixpoint unary_free (node : Expression) : bool :=
  match node with
  | Number _ | IdentifierExpression _ => true
  | UnaryExpression _ _ => false
  | BinaryExpression left_ _ right_
  | Comparison left_ _ right_ => unary_free left_ && unary_free right_
  | ParentheseExpression value_ => unary_free value_
  end.

(** A builtin statement, [Input] or [Print], somewhere in the block. *)
Fixpoint statement_calls_builtin (statement : Statement) : bool :=
  match statement with
  | BlockStatement block
  | If _ block
  | While _ block => block_calls_builtin block
  | Input _ | Print _ => true
  | Assignment _ _ | Declaration _ _ => false
  end
with block_calls_builtin (block : Block) : bool :=
  match block with
  | mkBlock statements _ =>
      (fix each (statements : list Statement) : bool :=
         match statements with
         | [] => false
         | statement :: statements' => statement_calls_builtin statement || each statements'
         end) statements
  end.

Fixpoint statements_call_builtin (statements : list Statement) : bool :=
  match statements with
  | [] => false
  | statement :: statements' =>
      statement_calls_builtin statement || statements_call_builtin statements'
  end.

Section Services.

Variable str : float -> string.
Variable render : string -> kwargs -> string.

(** Emitting [statement] appends exactly [text], whatever was emitted
    before, and adds the libraries of the builtin statements in it. *)
Definition renders (statement : Statement) (text : string) : Prop :=
  forall self,
    emit_statement str render statement self =
    Ok (mkEmitter (code self +:+ text) (libraries self ∪ statement_requires statement)).

Definition block_renders (block : Block) (text : string) : Prop :=
  forall self,
    emit_block str render block self =
    Ok (mkEmitter (code self +:+ text) (libraries self ∪ block_requires block)).

(** The text of a statement, put together from the texts of its parts;
    [emit_statement] is compared with it. *)
Fixpoint statement_text (statement : Statement) : result string :=
  match statement with
  | BlockStatement block => block_text block
  | If condition block =>
      c <- expression_text str condition ;;
      b <- block_text block ;;
      Ok ("if(" +:+ c +:+ "){" +:+ b +:+ "}")
  | While condition block =>
      c <- expression_text str condition ;;
      b <- block_text block ;;
      Ok ("while(" +:+ c +:+ "){" +:+ b +:+ "}")
  | Input identifier =>
      Ok (render "input.j2" [("identifier", StrValue (name identifier))])
  | Print (String_ value) =>
      Ok (render "print.j2" [("value", StrValue value); ("is_number", BoolValue false)])
  | Print (Expression_ expression) =>
      value <- to_string str expression ;;
      Ok (render "print.j2" [("value", StrValue value); ("is_number", BoolValue true)])
  | Declaration identifier expression =>
      e <- match expression with
           | Some expression => expression_text str expression
           | None => Ok "0.0"
           end ;;
      Ok ("double " +:+ name identifier +:+ "=" +:+ e +:+ ";")
  | Assignment identifier expression =>
      e <- expression_text str expression ;;
      Ok (name identifier +:+ "=" +:+ e +:+ ";")
  end
with block_text (block : Block) : result string :=
  match block with
  | mkBlock statements _ =>
      (fix each (statements : list Statement) : result string :=
         match statements with
         | [] => Ok ""
         | statement :: statements' =>
             first <- statement_text statement ;;
             rest <- each statements' ;;
             Ok (first +:+ rest)
         end) statements
  end.

Fixpoint statements_text (statements : list Statement) : result string :=
  match statements with
  | [] => Ok ""
  | statement :: statements' =>
      first <- statement_text statement ;;
      rest <- statements_text statements' ;;
      Ok (first +:+ rest)
  end.

End Services.

End Texts.

(** * Theorems *)

(** ** The analyzer against the scoping rules *)

Module AnalyzerFacts.
Import Analyzer Scoping.

Lemma is_defined_loop_true tables identifier :
  is_defined_loop tables identifier = true <->
  exists table symbol,
    In table tables /\
    lookup_symbol table (name identifier) = Some symbol /\
    (line (start symbol) < line (start (location identifier)))%Z.
Proof.
  induction tables as [|table tables IH]; simpl.
  - split; [discriminate | intros (? & ? & [] & _)].
  - destruct (lookup_symbol table (name identifier)) as [symbol|] eqn:Hlookup.
    + destruct (Z.gtb_spec (line (start (location identifier))) (line (start symbol)))
        as [Hlt|Hge].
      * split; [intros _ | reflexivity].
        exists table, symbol. repeat split; [now left | assumption | lia].
      * rewrite IH. split.
        -- intros (t & s & Hin & Hl & Hlt). exists t, s. auto.
        -- intros (t & s & [<-|Hin] & Hl & Hlt).
           ++ rewrite Hlookup in Hl. injection Hl as <-. lia.
           ++ exists t, s. auto.
    + rewrite IH. split.
      * intros (t & s & Hin & Hl & Hlt). exists t, s. auto.
      * intros (t & s & [<-|Hin] & Hl & Hlt); [congruence|].
        exists t, s. auto.
Qed.

Lemma is_defined_visible symbol_tables identifier :
  _is_defined symbol_tables identifier = true <-> visible symbol_tables identifier.
Proof.
  unfold _is_defined, visible. rewrite is_defined_loop_true.
  split; intros (t & s & Hin & H); exists t, s; split; try apply H.
  - apply list_elem_of_In, in_rev, Hin.
  - apply in_rev. rewrite rev_involutive. apply list_elem_of_In, Hin.
Qed.

Lemma undefined_use_spec scopes identifier :
  undefined_use (scopes, identifier) = true <-> ~ visible scopes identifier.
Proof.
  unfold undefined_use; simpl. rewrite <- is_defined_visible.
  destruct (_is_defined scopes identifier); simpl; split; congruence.
Qed.

Lemma first_undefined_app {A} uses1 uses2 (a : A) :
  first_undefined (uses1 ++ uses2) a =
  (first_undefined uses1 tt ;;; first_undefined uses2 a).
Proof.
  unfold first_undefined. induction uses1 as [|use uses1 IH]; simpl; [reflexivity|].
  destruct (undefined_use use); [reflexivity | exact IH].
Qed.

Lemma first_undefined_unit {A} uses (a : A) :
  first_undefined uses a = (first_undefined uses tt ;;; Ok a).
Proof. unfold first_undefined. destruct (find undefined_use uses); reflexivity. Qed.

Lemma analyze_expression_spec symbol_tables expression :
  _analyze_expression symbol_tables expression =
  first_undefined (at_scopes symbol_tables (expression_identifiers expression)) tt.
Proof.
  induction expression as [v|i|o e IH|l IHl o r IHr|l IHl o r IHr|e IH]; simpl;
    try assumption; try reflexivity.
  - unfold first_undefined; simpl. unfold undefined_use; simpl.
    destruct (_is_defined symbol_tables i); reflexivity.
  - unfold at_scopes in *. rewrite map_app, first_undefined_app, IHl, IHr. reflexivity.
  - unfold at_scopes in *. rewrite map_app, first_undefined_app, IHl, IHr. reflexivity.
Qed.

Lemma pop_append symbol_tables table :
  pop (append symbol_tables table) = Ok symbol_tables.
Proof.
  unfold pop, append. rewrite removelast_last.
  destruct symbol_tables; reflexivity.
Qed.

Lemma first_undefined_bind {A B} uses (a : A) (k : A -> result B) :
  (x <- first_undefined uses a ;; k x) = (first_undefined uses tt ;;; k a).
Proof. unfold first_undefined. destruct (find undefined_use uses); reflexivity. Qed.

Lemma analyze_block_unfold statements symbol_table symbol_tables :
  analyze_block (mkBlock statements symbol_table) symbol_tables =
  (inner <- analyze_statements statements (append symbol_tables symbol_table) ;;
   pop inner).
Proof.
  reflexivity.
Qed.

Lemma block_uses_unfold initializers statements symbol_table scopes :
  block_uses initializers (mkBlock statements symbol_table) scopes =
  statements_uses initializers statements (scopes ++ [symbol_table]).
Proof.
  simpl. induction statements as [|statement statements IH]; simpl;
    [reflexivity | now rewrite IH].
Qed.

Section Traversal.

Let statement_spec (statement : Statement) : Prop :=
  forall symbol_tables,
    _analyze_statement statement symbol_tables =
    first_undefined (statement_uses false statement symbol_tables) symbol_tables.

Let block_spec (block : Block) : Prop :=
  forall symbol_tables,
    analyze_block block symbol_tables =
    first_undefined (block_uses false block symbol_tables) symbol_tables.

Lemma analyze_condition_case condition block symbol_tables :
  block_spec block ->
  (_analyze_expression symbol_tables condition ;;; analyze_block block symbol_tables) =
  first_undefined
    (at_scopes symbol_tables (expression_identifiers condition)
     ++ block_uses false block symbol_tables) symbol_tables.
Proof.
  intros Hblock.
  rewrite first_undefined_app, analyze_expression_spec, Hblock. reflexivity.
Qed.

Lemma analyze_input_case identifier : statement_spec (Input identifier).
Proof.
  intros symbol_tables. simpl. unfold first_undefined, undefined_use; simpl.
  destruct (_is_defined symbol_tables identifier); reflexivity.
Qed.

Lemma analyze_print_case value : statement_spec (Print value).
Proof.
  intros symbol_tables. destruct value as [text|expression]; simpl; [reflexivity|].
  rewrite analyze_expression_spec. symmetry. apply first_undefined_unit.
Qed.

Lemma analyze_assignment_case identifier expression :
  statement_spec (Assignment identifier expression).
Proof.
  intros symbol_tables.
  change (statement_uses false (Assignment identifier expression) symbol_tables)
    with ([(symbol_tables, identifier)]
          ++ at_scopes symbol_tables (expression_identifiers expression)).
  rewrite first_undefined_app,
    (first_undefined_unit (at_scopes _ (expression_identifiers expression))).
  rewrite <- analyze_expression_spec.
  change [(symbol_tables, identifier)]
    with (at_scopes symbol_tables
            (expression_identifiers (IdentifierExpression identifier))).
  rewrite <- analyze_expression_spec. reflexivity.
Qed.

Lemma analyze_declaration_case identifier expression :
  statement_spec (Declaration identifier expression).
Proof. intros symbol_tables. destruct expression; reflexivity. Qed.

Lemma analyze_statements_case statements :
  Forall statement_spec statements ->
  forall symbol_tables,
    analyze_statements statements symbol_tables =
    first_undefined (statements_uses false statements symbol_tables) symbol_tables.
Proof.
  induction 1 as [|statement statements Hstatement _ IH]; intros symbol_tables;
    simpl; [reflexivity|].
  rewrite Hstatement, first_undefined_app, first_undefined_bind, IH. reflexivity.
Qed.

Lemma analyze_block_case statements symbol_table :
  Forall statement_spec statements -> block_spec (mkBlock statements symbol_table).
Proof.
  intros Hall symbol_tables.
  rewrite analyze_block_unfold, block_uses_unfold,
    (analyze_statements_case _ Hall), first_undefined_bind, pop_append.
  symmetry. apply first_undefined_unit.
Qed.

(** The traversal of a statement reports the first undefined use among
    the uses outside declaration initializers, and otherwise hands the
    deque back as it received it. *)
Lemma analyze_statement_spec statement : statement_spec statement.
Proof.
  apply (Statement_Block_ind statement_spec block_spec);
    auto using analyze_block_case, analyze_input_case, analyze_print_case,
      analyze_assignment_case, analyze_declaration_case;
    intros c b Hb symbol_tables; apply analyze_condition_case, Hb.
Qed.

Lemma analyze_block_spec block : block_spec block.
Proof.
  apply (Block_Statement_ind statement_spec block_spec);
    auto using analyze_block_case, analyze_input_case, analyze_print_case,
      analyze_assignment_case, analyze_declaration_case;
    intros c b Hb symbol_tables; apply analyze_condition_case, Hb.
Qed.

End Traversal.

Lemma analyze_spec ast :
  analyze ast = first_undefined (program_uses false ast) tt.
Proof.
  unfold analyze, program_uses.
  change (_analyze_statement (BlockStatement (block (root ast))) [])
    with (analyze_block (block (root ast)) []).
  rewrite analyze_block_spec, first_undefined_bind.
  symmetry. apply first_undefined_unit.
Qed.


(** X4: of the exceptions of the model, the analyzer raises none but a
    [TaipanSemanticError] for a use it traverses that is not visible, with
    that use's name and location: no [IndexError] from the deque and no
    [AssertionError] from a match without a case. What the interpreter
    raises at its own limits (recursion depth, memory) is outside the
    model. *)
Lemma analyze_raises_only_undefined ast e :
  analyze ast = Raise e ->
  exists scopes identifier,
    (scopes, identifier) ∈ program_uses false ast /\
    ~ visible scopes identifier /\
    e = TaipanSemanticError (location identifier)
          ("Identifier '" +:+ name identifier +:+ "' is not defined").
Proof.
  rewrite analyze_spec. unfold first_undefined.
  destruct (find undefined_use (program_uses false ast)) as [[scopes identifier]|] eqn:Hfind;
    [|discriminate].
  intros [= <-]. apply find_some in Hfind as [Hin Hundefined].
  exists scopes, identifier. split; [now apply list_elem_of_In|].
  split; [now apply undefined_use_spec | reflexivity].
Qed.

(** The tests of [tests/test_analyzer.py] that only involve the analyzer. *)
Example test_undeclared :
  analyze Samples.undeclared =
  Raise (TaipanSemanticError (Samples.at_line 2 11 1) "Identifier 'a' is not defined").
Proof. vm_compute. reflexivity. Qed.

Example test_defined_after :
  analyze Samples.defined_after =
  Raise (TaipanSemanticError (Samples.at_line 2 11 1) "Identifier 'a' is not defined").
Proof. vm_compute. reflexivity. Qed.

Example test_higher_scope_declaration :
  analyze Samples.higher_scope_declaration =
  Raise (TaipanSemanticError (Samples.at_line 5 11 1) "Identifier 'a' is not defined").
Proof. vm_compute. reflexivity. Qed.

Example test_higher_scope_usage : analyze Samples.higher_scope_usage = Ok tt.
Proof. vm_compute. reflexivity. Qed.

Example test_in_between_scope : analyze Samples.in_between_scope = Ok tt.
Proof. vm_compute. reflexivity. Qed.

Example test_redefinition_inner_scope : analyze Samples.redefinition_inner_scope = Ok tt.
Proof. vm_compute. reflexivity. Qed.

(** C1, as stated, fails: the block whose only statement is [let a = b]
    passes the analysis although [b], used in the initializer, is declared
    in no block at all. *)
Lemma analyze_accepts_undeclared_initializer :
  analyze Samples.undeclared_initializer = Ok tt /\
  ~ (analyze Samples.undeclared_initializer = Ok tt <->
     forall scopes identifier,
       (scopes, identifier) ∈ program_uses true Samples.undeclared_initializer ->
       visible scopes identifier).
Proof.
  assert (Hok : analyze Samples.undeclared_initializer = Ok tt)
    by (vm_compute; reflexivity).
  split; [exact Hok|].
  intros [Hvisible _].
  specialize (Hvisible Hok [Samples.declares (Samples.a_at 2 9)] (Samples.b_at 2 13)).
  assert (Hin : ([Samples.declares (Samples.a_at 2 9)], Samples.b_at 2 13)
                ∈ program_uses true Samples.undeclared_initializer)
    by (apply list_elem_of_In; left; reflexivity).
  apply Hvisible in Hin. apply is_defined_visible in Hin.
  vm_compute in Hin. discriminate.
Qed.

(** C1, amended: the analysis of a program succeeds if and only if every
    identifier use outside declaration initializers (conditions, input and
    assignment targets, assigned expressions, print arguments) has, in the
    symbol table of its own or an enclosing block, a declaration on a
    strictly earlier line. *)
Theorem analyze_succeeds_iff_traversed_uses_visible (ast : AST) :
  analyze ast = Ok tt <->
  forall scopes identifier,
    (scopes, identifier) ∈ program_uses false ast -> visible scopes identifier.
Proof.
  rewrite analyze_spec. unfold first_undefined.
  destruct (find undefined_use (program_uses false ast)) as [[scopes identifier]|] eqn:Hfind.
  - apply find_some in Hfind as [Hin Hundefined].
    split; [discriminate|]. intros Hall. exfalso.
    apply undefined_use_spec in Hundefined. apply Hundefined, Hall.
    now apply list_elem_of_In.
  - split; [|reflexivity]. intros _ scopes identifier Hin.
    apply list_elem_of_In in Hin.
    pose proof (find_none _ _ Hfind _ Hin) as Hdefined.
    unfold undefined_use in Hdefined; simpl in Hdefined.
    apply is_defined_visible. now destruct (_is_defined scopes identifier).
Qed.

Lemma analyze_succeeds_iff_witness : analyze Samples.higher_scope_usage = Ok tt.
Proof.
  apply (proj2 (analyze_succeeds_iff_traversed_uses_visible Samples.higher_scope_usage)).
  intros scopes identifier Hin. apply list_elem_of_In in Hin.
  destruct Hin as [[= <- <-]|[]].
  apply is_defined_visible. vm_compute. reflexivity.
Defined.

(** C2, as stated, fails: on line 2 the initializer of [let a = a] names
    the variable being declared, which no table holds with an earlier
    line, so analysing the initializer would raise; the declaration and
    the program around it are accepted all the same. *)
Lemma self_referential_initializer_accepted :
  _analyze_expression [Samples.declares (Samples.a_at 2 9)]
    (IdentifierExpression (Samples.a_at 2 13)) =
  Raise (TaipanSemanticError (Samples.at_line 2 13 1) "Identifier 'a' is not defined") /\
  _analyze_statement Samples.self_initializer [Samples.declares (Samples.a_at 2 9)] =
  Ok [Samples.declares (Samples.a_at 2 9)] /\
  analyze Samples.self_referential = Ok tt.
Proof. repeat split; vm_compute; reflexivity. Qed.

(** C2, amended: for every Declaration statement, with or without an
    initializer, the analyzer does not look into the initializer: the
    statement is accepted and the scope stack is left as it was, whatever
    identifiers the initializer names. *)
Theorem declaration_initializer_not_analyzed
    (identifier : Identifier) (expression : option Expression)
    (symbol_tables : deque) :
  _analyze_statement (Declaration identifier expression) symbol_tables =
    Ok symbol_tables /\
  forall rest,
    analyze_statements (Declaration identifier expression :: rest) symbol_tables =
    analyze_statements rest symbol_tables.
Proof. split; reflexivity. Qed.

Lemma find_undefined_split uses use :
  find undefined_use uses = Some use ->
  exists before after,
    uses = before ++ use :: after /\
    (forall earlier, In earlier before -> undefined_use earlier = false) /\
    undefined_use use = true.
Proof.
  induction uses as [|first uses IH]; simpl; [discriminate|].
  destruct (undefined_use first) eqn:Hfirst.
  - intros [= <-]. exists [], uses. repeat split; [intros ? []| exact Hfirst].
  - intros Hfind. destruct (IH Hfind) as (before & after & -> & Hbefore & Huse).
    exists (first :: before), after. repeat split; [|exact Huse].
    intros earlier [<-|Hin]; [exact Hfirst | now apply Hbefore].
Qed.

(** C3, as stated, fails twice over. In the block holding only [let a = b],
    no table holds [b], used in the initializer, and the analysis raises
    nothing. In the block that prints [a] and then [b], neither declared,
    no table holds [b], and the error raised is not the one for [b]: the
    analysis has stopped at [a]. *)
Lemma undefined_use_not_reported :
  (([Samples.declares (Samples.a_at 2 9)], Samples.b_at 2 13)
     ∈ program_uses true Samples.undeclared_initializer /\
   ~ visible [Samples.declares (Samples.a_at 2 9)] (Samples.b_at 2 13) /\
   analyze Samples.undeclared_initializer = Ok tt) /\
  (([∅], Samples.b_at 3 11) ∈ program_uses false Samples.two_undeclared /\
   ~ visible [∅] (Samples.b_at 3 11) /\
   analyze Samples.two_undeclared <>
   Raise (TaipanSemanticError (location (Samples.b_at 3 11))
            ("Identifier '" +:+ name (Samples.b_at 3 11) +:+ "' is not defined"))).
Proof.
  split; split.
  - apply list_elem_of_In. left. reflexivity.
  - split; [|vm_compute; reflexivity].
    apply undefined_use_spec. vm_compute. reflexivity.
  - apply list_elem_of_In. right. left. reflexivity.
  - split; [apply undefined_use_spec; vm_compute; reflexivity|].
    vm_compute. discriminate.
Qed.

(** C3, amended: when an identifier use outside a declaration initializer
    has no symbol table on the scope stack holding its name with a
    declaration on a strictly earlier line, reaching it raises a
    TaipanSemanticError with the message "Identifier '<name>' is not
    defined" and the location of the use; and the analysis of the program
    fails with that error for the first such use of the traversal, with
    that use's name and location. *)
Theorem undefined_use_raises
    (ast : AST) (scopes : deque) (identifier : Identifier) :
  (scopes, identifier) ∈ program_uses false ast ->
  (forall table symbol,
      table ∈ scopes ->
      lookup_symbol table (name identifier) = Some symbol ->
      ~ (line (start symbol) < line (start (location identifier)))%Z) ->
  _analyze_expression scopes (IdentifierExpression identifier) =
    Raise (TaipanSemanticError (location identifier)
             ("Identifier '" +:+ name identifier +:+ "' is not defined")) /\
  exists before scopes' identifier' after,
    program_uses false ast = before ++ (scopes', identifier') :: after /\
    (forall earlier_scopes earlier,
        (earlier_scopes, earlier) ∈ before -> visible earlier_scopes earlier) /\
    ~ visible scopes' identifier' /\
    analyze ast =
    Raise (TaipanSemanticError (location identifier')
             ("Identifier '" +:+ name identifier' +:+ "' is not defined")).
Proof.
  intros Hin Hnone.
  assert (Hhidden : ~ visible scopes identifier).
  { intros (table & symbol & Htable & Hlookup & Hline).
    exact (Hnone table symbol Htable Hlookup Hline). }
  split.
  - simpl. apply undefined_use_spec in Hhidden. unfold undefined_use in Hhidden.
    simpl in Hhidden. now rewrite Hhidden.
  - rewrite analyze_spec. unfold first_undefined.
    destruct (find undefined_use (program_uses false ast)) as [[scopes' identifier']|]
      eqn:Hfind.
    + destruct (find_undefined_split _ _ Hfind) as (before & after & Huses & Hbefore & Huse).
      exists before, scopes', identifier', after.
      split; [exact Huses|]. split; [|split; [now apply undefined_use_spec | reflexivity]].
      intros earlier_scopes earlier Hearlier.
      apply list_elem_of_In, Hbefore in Hearlier.
      unfold undefined_use in Hearlier. simpl in Hearlier.
      apply is_defined_visible. now destruct (_is_defined earlier_scopes earlier).
    + exfalso. apply list_elem_of_In in Hin.
      pose proof (find_none _ _ Hfind _ Hin) as Hdefined.
      apply undefined_use_spec in Hhidden. congruence.
Qed.

Lemma undefined_use_raises_witness :
  _analyze_expression [∅] (IdentifierExpression (Samples.b_at 3 11)) =
    Raise (TaipanSemanticError (location (Samples.b_at 3 11))
             ("Identifier '" +:+ name (Samples.b_at 3 11) +:+ "' is not defined")) /\
  exists before scopes' identifier' after,
    program_uses false Samples.two_undeclared =
      before ++ (scopes', identifier') :: after /\
    (forall earlier_scopes earlier,
        (earlier_scopes, earlier) ∈ before -> visible earlier_scopes earlier) /\
    ~ visible scopes' identifier' /\
    analyze Samples.two_undeclared =
    Raise (TaipanSemanticError (location identifier')
             ("Identifier '" +:+ name identifier' +:+ "' is not defined")).
Proof.
  apply (undefined_use_raises Samples.two_undeclared [∅] (Samples.b_at 3 11)).
  - apply list_elem_of_In. right. left. reflexivity.
  - intros table symbol Hin Hlookup.
    apply list_elem_of_In in Hin. destruct Hin as [<-|[]].
    vm_compute in Hlookup. discriminate.
Defined.





(** C10: a Print statement whose value is a String literal is accepted
    without the string being traversed, whatever the string holds and
    whatever the scope stack is. *)
Theorem print_string_not_analyzed (text : string) (symbol_tables : deque) :
  _analyze_statement (Print (String_ text)) symbol_tables = Ok symbol_tables /\
  forall rest,
    analyze_statements (Print (String_ text) :: rest) symbol_tables =
    analyze_statements rest symbol_tables.
Proof. split; reflexivity. Qed.

End AnalyzerFacts.

(** ** The emitter against the rendering rules *)

Module EmitterFacts.
Import Emitter Rendering.

Lemma append_cons x (a b : string) : String x a +:+ b = String x (a +:+ b).
Proof. reflexivity. Qed.

Lemma append_assoc (a b c : string) : (a +:+ b) +:+ c = a +:+ b +:+ c.
Proof.
  induction a as [|x a IH]; [reflexivity|].
  now rewrite !append_cons, IH.
Qed.

Lemma append_empty_r (a : string) : a +:+ "" = a.
Proof.
  induction a as [|x a IH]; [reflexivity|].
  now rewrite append_cons, IH.
Qed.

Lemma write_write a b self : write b (write a self) = write (a +:+ b) self.
Proof. unfold write; simpl. now rewrite append_assoc. Qed.

Lemma write_inj a b self : write a self = write b self -> a = b.
Proof. unfold write. intros [= H]. now apply (inj (String.append (code self))) in H. Qed.

Section Services.

Variable str : float -> string.
Variable render : string -> kwargs -> string.
Variable walk : gset string -> list string.

(** Walking a set lists each of its members once. *)
Hypothesis walk_members : forall libraries, Permutation (walk libraries) (elements libraries).

Lemma emit_expression_text node self :
  emit_expression str node self =
  (text <- expression_text str node ;; Ok (write text self)).
Proof.
  revert self.
  induction node as [v|i|o e IH|l IHl o r IHr|l IHl o r IHr|e IH]; intros self; simpl;
    try reflexivity.
  - rewrite IH. destruct (expression_text str e); simpl; [|reflexivity].
    now rewrite write_write.
  - rewrite IHl. destruct (expression_text str l) as [tl|]; simpl; [|reflexivity].
    rewrite IHr. destruct (expression_text str r) as [tr|]; simpl; [|reflexivity].
    now rewrite !write_write.
  - rewrite IHl. destruct (expression_text str l) as [tl|]; simpl; [|reflexivity].
    rewrite IHr. destruct (expression_text str r) as [tr|]; simpl; [|reflexivity].
    now rewrite !write_write.
Qed.

Lemma emits_text node text :
  emits str node text <-> expression_text str node = Ok text.
Proof.
  unfold emits. split.
  - intros Hemits. specialize (Hemits __init__).
    rewrite emit_expression_text in Hemits.
    destruct (expression_text str node) as [text'|]; simpl in Hemits; [|discriminate].
    injection Hemits as Hemits. change (text' = text) in Hemits. now subst.
  - intros Htext self. now rewrite emit_expression_text, Htext.
Qed.

(** An expression that is emitted at all is emitted as one text,
    independent of the code before it, and without a library. *)
Lemma emit_expression_ok node self self' :
  emit_expression str node self = Ok self' ->
  exists text, emits str node text /\ self' = write text self.
Proof.
  rewrite emit_expression_text.
  destruct (expression_text str node) as [text|] eqn:Htext; simpl; [|discriminate].
  intros [= <-]. exists text. split; [now apply emits_text | reflexivity].
Qed.

(** C9: the text emitted for a BinaryExpression or a Comparison is the
    text emitted for the left operand, the spelling of the operator and
    the text emitted for the right operand, with nothing added; the text
    emitted for a UnaryExpression is the spelling of the operator and
    the whole text emitted for the operand. *)
Theorem operator_between_operand_texts
    (left_ right_ : Expression) (operator : Operator) (text : string) :
  (emits str (BinaryExpression left_ operator right_) text <->
   exists l r, emits str left_ l /\ emits str right_ r /\
               text = l +:+ value operator +:+ r) /\
  (emits str (Comparison left_ operator right_) text <->
   exists l r, emits str left_ l /\ emits str right_ r /\
               text = l +:+ value operator +:+ r) /\
  (emits str (UnaryExpression operator right_) text <->
   exists r, emits str right_ r /\ text = value operator +:+ r).
Proof.
  repeat split.
  1, 3: intros Hemits; apply emits_text in Hemits; simpl in Hemits;
    destruct (expression_text str left_) as [l|] eqn:Hl; [|discriminate];
    destruct (expression_text str right_) as [r|] eqn:Hr; [|discriminate];
    injection Hemits as <-; exists l, r;
    repeat split; now apply emits_text.
  1, 2: intros (l & r & Hl & Hr & ->); apply emits_text; simpl;
    apply emits_text in Hl, Hr; now rewrite Hl, Hr.
  - intros Hemits. apply emits_text in Hemits. simpl in Hemits.
    destruct (expression_text str right_) as [r|] eqn:Hr; [|discriminate].
    injection Hemits as <-. exists r. split; [now apply emits_text | reflexivity].
  - intros (r & Hr & ->). apply emits_text. simpl.
    apply emits_text in Hr. now rewrite Hr.
Qed.

(** C8: a Declaration appends [double <name>=<initializer>;] to the code
    and leaves the libraries alone, where the initializer is the text the
    emitter appends for the initializer expression, and [0.0] when there is
    no initializer. *)
Theorem declaration_emitted_as_double (identifier : Identifier) (self : Emitter) :
  emit_statement str render (Declaration identifier None) self =
    Ok (mkEmitter (code self +:+ "double " +:+ name identifier +:+ "=" +:+ "0.0" +:+ ";")
                  (libraries self)) /\
  (forall expression text,
      (forall before,
          emit_expression str expression before =
          Ok (mkEmitter (code before +:+ text) (libraries before))) ->
      emit_statement str render (Declaration identifier (Some expression)) self =
      Ok (mkEmitter (code self +:+ "double " +:+ name identifier +:+ "=" +:+ text +:+ ";")
                    (libraries self))) /\
  (forall expression self',
      emit_statement str render (Declaration identifier (Some expression)) self =
        Ok self' ->
      exists text,
        (forall before,
            emit_expression str expression before =
            Ok (mkEmitter (code before +:+ text) (libraries before))) /\
        self' =
        mkEmitter (code self +:+ "double " +:+ name identifier +:+ "=" +:+ text +:+ ";")
                  (libraries self)).
Proof.
  split; [|split].
  - simpl. unfold emit_identifier, write. simpl. now rewrite ?append_assoc.
  - intros expression text Hemits. simpl. rewrite Hemits. simpl.
    unfold emit_identifier, write. simpl. now rewrite ?append_assoc.
  - intros expression self'. simpl.
    destruct (emit_expression str expression _) as [self1|] eqn:Hemit; [|discriminate].
    simpl. intros [= <-].
    apply emit_expression_ok in Hemit as (text & Hemits & ->).
    exists text. split; [exact Hemits|].
    unfold emit_identifier, write. simpl. now rewrite ?append_assoc.
Qed.

Lemma FUNCTION_MAPPING_print :
  FUNCTION_MAPPING !! "print" = Some (mkFunction "print" "print.j2" ["stdio.h"]).
Proof. vm_compute. reflexivity. Qed.

Lemma FUNCTION_MAPPING_input :
  FUNCTION_MAPPING !! "input" = Some (mkFunction "input" "input.j2" ["stdio.h"]).
Proof. vm_compute. reflexivity. Qed.

Lemma emit_function_print arguments self :
  emit_function render "print" arguments self =
  Ok (mkEmitter (code self +:+ render "print.j2" arguments)
                (libraries self ∪ {["stdio.h"]})).
Proof. unfold emit_function. now rewrite FUNCTION_MAPPING_print. Qed.

Lemma emit_function_input arguments self :
  emit_function render "input" arguments self =
  Ok (mkEmitter (code self +:+ render "input.j2" arguments)
                (libraries self ∪ {["stdio.h"]})).
Proof. unfold emit_function. now rewrite FUNCTION_MAPPING_input. Qed.

(** C5: for a Print of a UnaryExpression, the text bound to [value] in
    the template is the spelling of the operator followed by the first
    character only of the flattened operand. *)
Theorem print_unary_keeps_first_character
    (operator : Operator) (operand : Expression) (first : ascii) (rest : string)
    (self : Emitter) :
  to_string str operand = Ok (String first rest) ->
  to_string str (UnaryExpression operator operand) =
    Ok (value operator +:+ String first "") /\
  emit_statement str render
    (Print (Expression_ (UnaryExpression operator operand))) self =
    Ok (mkEmitter
          (code self +:+
           render "print.j2"
             [("value", StrValue (value operator +:+ String first ""));
              ("is_number", BoolValue true)])
          (libraries self ∪ {["stdio.h"]})).
Proof.
  intros Hoperand.
  assert (Hunary : to_string str (UnaryExpression operator operand) =
                   Ok (value operator +:+ String first ""))
    by (simpl; now rewrite Hoperand).
  split; [exact Hunary|].
  change (emit_statement str render
            (Print (Expression_ (UnaryExpression operator operand))) self)
    with (value <- to_string str (UnaryExpression operator operand) ;;
          emit_function render "print"
            [("value", StrValue value); ("is_number", BoolValue true)] self).
  rewrite Hunary. simpl. apply emit_function_print.
Qed.

Lemma to_string_flattenable node text :
  to_string str node = Ok text -> flattenable node = true.
Proof.
  revert text.
  induction node as [v|i|o e IH|l IHl o r IHr|l IHl o r IHr|e IH]; intros text; simpl;
    try reflexivity; try discriminate.
  - destruct (to_string str e) as [t|]; [|discriminate]. intros _. now apply (IH t).
  - destruct (to_string str l) as [tl|]; [|discriminate].
    destruct (to_string str r) as [tr|]; [|discriminate].
    intros _. now rewrite (IHl tl), (IHr tr).
Qed.

Section NonEmptyNumbers.

Hypothesis str_not_empty : forall value, str value <> "".

Lemma to_string_defined node :
  flattenable node = true -> named node = true ->
  exists first rest, to_string str node = Ok (String first rest).
Proof.
  induction node as [v|i|o e IH|l IHl o r IHr|l IHl o r IHr|e IH]; simpl;
    try discriminate.
  - intros _ _. specialize (str_not_empty v).
    destruct (str v) as [|first rest]; [contradiction | eauto].
  - intros _. destruct (name i) as [|first rest]; [discriminate | eauto].
  - intros Hflat Hnamed. destruct (IH Hflat Hnamed) as (first & rest & ->). simpl.
    destruct (value o) as [|x op]; [now exists first, ""|].
    exists x, (op +:+ String first ""). reflexivity.
  - intros [Hl Hr]%andb_true_iff [Hnl Hnr]%andb_true_iff.
    destruct (IHl Hl Hnl) as (first & rest & ->).
    destruct (IHr Hr Hnr) as (first' & rest' & ->). simpl.
    exists first, (rest +:+ value o +:+ String first' rest'). reflexivity.
Qed.

Lemma to_string_undefined node :
  flattenable node = false -> named node = true ->
  to_string str node = Raise AssertionError.
Proof.
  induction node as [v|i|o e IH|l IHl o r IHr|l IHl o r IHr|e IH]; simpl;
    try discriminate; try reflexivity.
  - intros Hflat Hnamed. now rewrite IH.
  - intros Hflat [Hnl Hnr]%andb_true_iff.
    destruct (flattenable l) eqn:Hl.
    + destruct (to_string_defined l Hl Hnl) as (first & rest & ->). simpl.
      now rewrite IHr.
    + now rewrite IHl.
Qed.

End NonEmptyNumbers.

(** C6: [to_string] returns a text only for expressions made of Number,
    Identifier, BinaryExpression and UnaryExpression nodes; a Print
    whose expression is, or holds where [to_string] goes, a
    ParentheseExpression or a Comparison makes the emitter fail its
    assertion. *)
Theorem to_string_partial :
  (forall node text, to_string str node = Ok text -> flattenable node = true) /\
  ((forall value, str value <> "") ->
   forall node self,
     flattenable node = false -> named node = true ->
     emit_statement str render (Print (Expression_ node)) self =
     Raise AssertionError).
Proof.
  split; [exact to_string_flattenable|].
  intros Hstr node self Hflat Hnamed.
  change (emit_statement str render (Print (Expression_ node)) self)
    with (value <- to_string str node ;;
          emit_function render "print"
            [("value", StrValue value); ("is_number", BoolValue true)] self).
  now rewrite (to_string_undefined Hstr node Hflat Hnamed).
Qed.

Lemma function_requires_print : function_requires "print" = {["stdio.h"]}.
Proof.
  unfold function_requires. rewrite FUNCTION_MAPPING_print. simpl.
  apply (right_id_L ∅ (∪)).
Qed.

Lemma function_requires_input : function_requires "input" = {["stdio.h"]}.
Proof.
  unfold function_requires. rewrite FUNCTION_MAPPING_input. simpl.
  apply (right_id_L ∅ (∪)).
Qed.

Section Libraries.

Let statement_spec (statement : Statement) : Prop :=
  forall self self',
    emit_statement str render statement self = Ok self' ->
    libraries self' = libraries self ∪ statement_requires statement.

Let block_spec (block : Block) : Prop :=
  forall self self',
    emit_block str render block self = Ok self' ->
    libraries self' = libraries self ∪ block_requires block.

Lemma emit_expression_libraries node self self' :
  emit_expression str node self = Ok self' -> libraries self' = libraries self.
Proof. intros (text & _ & ->)%emit_expression_ok. reflexivity. Qed.

Lemma emit_statements_libraries statements :
  Forall statement_spec statements ->
  forall self self',
    emit_statements str render statements self = Ok self' ->
    libraries self' = libraries self ∪ statements_requires statements.
Proof.
  induction 1 as [|statement statements Hstatement _ IH]; intros self self'; simpl.
  - intros [= <-]. symmetry. apply (right_id_L ∅ (∪)).
  - destruct (emit_statement str render statement self) as [self1|] eqn:Hemit;
      [|discriminate].
    simpl. intros Hrest. apply IH in Hrest. apply Hstatement in Hemit.
    rewrite Hrest, Hemit. symmetry. apply (assoc_L (∪)).
Qed.

Lemma emit_loop_case condition block opening self self' :
  block_spec block ->
  (self <- emit_expression str condition (write opening self) ;;
   self <- emit_block str render block (write "){" self) ;;
   Ok (write "}" self)) = Ok self' ->
  libraries self' = libraries self ∪ block_requires block.
Proof.
  intros Hblock.
  destruct (emit_expression str condition _) as [self1|] eqn:Hcondition;
    [|discriminate].
  simpl.
  destruct (emit_block str render block _) as [self2|] eqn:Hbody; [|discriminate].
  simpl. intros [= <-].
  apply emit_expression_libraries in Hcondition. apply Hblock in Hbody.
  simpl in *. now rewrite Hbody, Hcondition.
Qed.

Lemma emit_simple_cases :
  (forall identifier, statement_spec (Input identifier)) /\
  (forall value, statement_spec (Print value)) /\
  (forall identifier expression, statement_spec (Assignment identifier expression)) /\
  (forall identifier expression, statement_spec (Declaration identifier expression)).
Proof.
  repeat split.
  - intros identifier self self'. simpl. rewrite emit_function_input.
    intros [= <-]. simpl. now rewrite function_requires_input.
  - intros [text|expression] self self'; simpl.
    + rewrite emit_function_print. intros [= <-]. simpl.
      now rewrite function_requires_print.
    + destruct (to_string str expression); simpl; [|discriminate].
      rewrite emit_function_print. intros [= <-]. simpl.
      now rewrite function_requires_print.
  - intros identifier expression self self'. simpl.
    destruct (emit_expression str expression _) as [self1|] eqn:Hemit; [|discriminate].
    simpl. intros [= <-]. apply emit_expression_libraries in Hemit.
    simpl in *. rewrite Hemit. symmetry. apply (right_id_L ∅ (∪)).
  - intros identifier [expression|] self self'; simpl.
    + destruct (emit_expression str expression _) as [self1|] eqn:Hemit;
        [|discriminate].
      simpl. intros [= <-]. apply emit_expression_libraries in Hemit.
      simpl in *. rewrite Hemit. symmetry. apply (right_id_L ∅ (∪)).
    + intros [= <-]. simpl. symmetry. apply (right_id_L ∅ (∪)).
Qed.

Lemma emit_block_case statements symbol_table :
  Forall statement_spec statements -> block_spec (mkBlock statements symbol_table).
Proof.
  intros Hall self self' Hemit.
  apply (emit_statements_libraries statements Hall) in Hemit. exact Hemit.
Qed.

(** The libraries an emitted block leaves in the set are the ones
    that were there and the ones its builtin statements require. *)
Lemma emit_block_libraries block : block_spec block.
Proof.
  destruct emit_simple_cases as (Hinput & Hprint & Hassignment & Hdeclaration).
  apply (Block_Statement_ind statement_spec block_spec);
    auto using emit_block_case.
  - intros c b Hb self self'. now apply emit_loop_case.
  - intros c b Hb self self'. now apply emit_loop_case.
Qed.

End Libraries.

Lemma directives_app libraries1 libraries2 :
  directives (libraries1 ++ libraries2) =
  directives libraries1 +:+ directives libraries2.
Proof.
  induction libraries1 as [|library libraries1 IH]; [reflexivity|].
  simpl. unfold directives in *. simpl. now rewrite IH, append_assoc.
Qed.

Lemma emit_header_code self :
  code (emit_header walk self) =
  directives (rev (walk (libraries self))) +:+ code self.
Proof.
  unfold emit_header. generalize (walk (libraries self)) as order.
  intros order. revert self.
  induction order as [|library order IH]; intros self; [reflexivity|].
  simpl. rewrite IH. simpl. rewrite directives_app.
  unfold directives at 2. simpl.
  now rewrite append_empty_r, append_assoc.
Qed.

(** C7: when the emission of a program completes, the emitted text is one
    include directive for each required library, each library once however
    many builtin statements require it, followed by the one entry-point
    function [int main(){], the text of all the statements, [return 0;}];
    like each directive, the function is ended by a line feed. *)
Theorem emitted_program_shape (node : Program) (self : Emitter) :
  emit_program str render walk node __init__ = Ok self ->
  exists body order,
    emit_block str render (block node) __init__ =
      Ok (mkEmitter body (block_requires (block node))) /\
    NoDup order /\
    (forall library, library ∈ order <-> library ∈ block_requires (block node)) /\
    code self = directives order +:+ entry_point body +:+ newline.
Proof.
  unfold emit_program.
  destruct (emit_block str render (block node) __init__) as [[body required]|] eqn:Hblock;
    [|discriminate].
  simpl. intros [= <-].
  pose proof (emit_block_libraries _ _ _ Hblock) as Hrequired. simpl in Hrequired.
  rewrite (left_id_L ∅ (∪)) in Hrequired. subst required.
  exists body, (rev (walk (block_requires (block node)))).
  split; [reflexivity|]. split; [|split].
  - apply NoDup_ListNoDup, List.NoDup_rev, NoDup_ListNoDup.
    rewrite walk_members. apply NoDup_elements.
  - intros library. rewrite <- elem_of_elements, <- (walk_members _), !list_elem_of_In.
    symmetry. apply in_rev.
  - rewrite emit_header_code. unfold entry_point. simpl.
    now rewrite !append_assoc.
Qed.

End Services.

Lemma declaration_emitted_as_double_witness :
  emit_statement Samples.sample_str Samples.sample_render
    (Declaration (Samples.a_at 2 9) (Some (Number 1)))
    (mkEmitter "int x;" {["stdio.h"]}) =
  Ok (mkEmitter ("int x;" +:+ "double " +:+ "a" +:+ "=" +:+ "1.0" +:+ ";") {["stdio.h"]}).
Proof.
  exact (proj1 (proj2 (declaration_emitted_as_double
                         Samples.sample_str Samples.sample_render
                         (Samples.a_at 2 9) (mkEmitter "int x;" {["stdio.h"]})))
           (Number 1) "1.0" (fun before => eq_refl)).
Defined.

Lemma operator_between_operand_texts_witness :
  emits Samples.sample_str
    (BinaryExpression (IdentifierExpression (Samples.a_at 2 1)) Samples.plus
       (IdentifierExpression (Samples.b_at 2 3))) "a+b".
Proof.
  apply (proj2 (proj1 (operator_between_operand_texts Samples.sample_str
                         (IdentifierExpression (Samples.a_at 2 1))
                         (IdentifierExpression (Samples.b_at 2 3))
                         Samples.plus "a+b"))).
  exists "a", "b". repeat split.
Defined.

Lemma print_unary_keeps_first_character_witness :
  to_string Samples.sample_str
    (UnaryExpression Samples.minus
       (BinaryExpression (IdentifierExpression (Samples.a_at 2 8)) Samples.plus
          (IdentifierExpression (Samples.b_at 2 10)))) = Ok "-a".
Proof.
  apply (print_unary_keeps_first_character Samples.sample_str Samples.sample_render
           Samples.minus
           (BinaryExpression (IdentifierExpression (Samples.a_at 2 8)) Samples.plus
              (IdentifierExpression (Samples.b_at 2 10)))
           "a"%char "+b" __init__).
  reflexivity.
Defined.

Lemma to_string_partial_witness :
  emit_statement Samples.sample_str Samples.sample_render
    (Print (Expression_
              (BinaryExpression (IdentifierExpression (Samples.a_at 2 7)) Samples.plus
                 (ParentheseExpression (Number 1))))) __init__ =
  Raise AssertionError.
Proof.
  apply (proj2 (to_string_partial Samples.sample_str Samples.sample_render)).
  - intros value. discriminate.
  - reflexivity.
  - reflexivity.
Defined.

(** Three builtin statements, one directive. *)
Example builtins_include_once :
  emit_program Samples.sample_str Samples.sample_render Samples.sample_walk
    Samples.builtins __init__ =
  Ok (mkEmitter
        ("#include<stdio.h>" +:+ newline +:+
         "int main(){input.j2(a);print.j2(a);print.j2(a);return 0;}" +:+ newline)
        {["stdio.h"]}).
Proof. vm_compute. reflexivity. Qed.

(** The empty program: no directive, an empty body. *)
Example empty_program_text :
  emit_program Samples.sample_str Samples.sample_render Samples.sample_walk
    Samples.empty __init__ =
  Ok (mkEmitter ("int main(){return 0;}" +:+ newline) ∅).
Proof. vm_compute. reflexivity. Qed.

Lemma emitted_program_shape_witness :
  exists body order,
    emit_block Samples.sample_str Samples.sample_render (block Samples.builtins) __init__ =
      Ok (mkEmitter body (block_requires (block Samples.builtins))) /\
    NoDup order /\
    (forall library, library ∈ order <-> library ∈ block_requires (block Samples.builtins)) /\
    "#include<stdio.h>" +:+ newline +:+
    "int main(){input.j2(a);print.j2(a);print.j2(a);return 0;}" +:+ newline =
    directives order +:+ entry_point body +:+ newline.
Proof.
  apply (emitted_program_shape Samples.sample_str Samples.sample_render
           Samples.sample_walk (fun libraries => Permutation_refl _) Samples.builtins
           (mkEmitter
              ("#include<stdio.h>" +:+ newline +:+
               "int main(){input.j2(a);print.j2(a);print.j2(a);return 0;}" +:+ newline)
              {["stdio.h"]})).
  vm_compute. reflexivity.
Defined.

End EmitterFacts.

(** ** More on the analyzer *)

Module AnalyzerProperties.
Import Analyzer Scoping Erasure AnalyzerFacts.

Lemma is_defined_loop_app tables1 tables2 identifier :
  is_defined_loop (tables1 ++ tables2) identifier =
  is_defined_loop tables1 identifier || is_defined_loop tables2 identifier.
Proof.
  induction tables1 as [|table tables1 IH]; simpl; [reflexivity|].
  destruct (lookup_symbol table (name identifier)) as [symbol|]; [|exact IH].
  destruct (line (start (location identifier)) >? line (start symbol)); [reflexivity|].
  exact IH.
Qed.

Lemma visible_permutation scopes scopes' identifier :
  Permutation scopes scopes' -> visible scopes identifier -> visible scopes' identifier.
Proof.
  intros Hperm (table & symbol & Hin & Hrest).
  exists table, symbol. split; [|exact Hrest].
  apply list_elem_of_In. apply (Permutation_in _ Hperm). now apply list_elem_of_In.
Qed.

(** X1: [_is_defined] answers True exactly when some table of the deque
    holds the identifier's name with a declaration whose line is strictly
    before the line of the identifier. *)
Theorem is_defined_iff_earlier_declaration
    (symbol_tables : deque) (identifier : Identifier) :
  _is_defined symbol_tables identifier = true <->
  exists table symbol,
    table ∈ symbol_tables /\
    lookup_symbol table (name identifier) = Some symbol /\
    (line (start symbol) < line (start (location identifier)))%Z.
Proof. apply is_defined_visible. Qed.

Lemma is_defined_iff_earlier_declaration_witness :
  _is_defined [Samples.declares (Samples.a_at 2 9); ∅] (Samples.a_at 4 15) = true.
Proof.
  apply (proj2 (is_defined_iff_earlier_declaration
                  [Samples.declares (Samples.a_at 2 9); ∅] (Samples.a_at 4 15))).
  exists (Samples.declares (Samples.a_at 2 9)), (Samples.at_line 2 9 1).
  split; [apply list_elem_of_In; now left|].
  split; [vm_compute; reflexivity | simpl; lia].
Defined.

(** X2: the answer of [_is_defined] does not depend on the order of the
    tables: a deque made of two parts is searched as the two parts are, and
    any rearrangement of the deque gives the same answer. A table that holds
    the name with a later line never hides an earlier declaration in another
    table. *)
Theorem is_defined_order_irrelevant
    (symbol_tables symbol_tables' : deque) (identifier : Identifier) :
  _is_defined (symbol_tables ++ symbol_tables') identifier =
    _is_defined symbol_tables identifier || _is_defined symbol_tables' identifier /\
  (Permutation symbol_tables symbol_tables' ->
   _is_defined symbol_tables identifier = _is_defined symbol_tables' identifier).
Proof.
  split.
  - unfold _is_defined. rewrite rev_app_distr, is_defined_loop_app. apply orb_comm.
  - intros Hperm. apply eq_true_iff_eq. rewrite !is_defined_visible.
    split; apply visible_permutation; [assumption | now symmetry].
Qed.

Lemma is_defined_order_irrelevant_witness :
  _is_defined [Samples.declares (Samples.a_at 2 9); Samples.declares (Samples.a_at 4 13)]
    (Samples.a_at 3 1) =
  _is_defined [Samples.declares (Samples.a_at 4 13); Samples.declares (Samples.a_at 2 9)]
    (Samples.a_at 3 1).
Proof.
  apply (proj2 (is_defined_order_irrelevant
                  [Samples.declares (Samples.a_at 2 9); Samples.declares (Samples.a_at 4 13)]
                  [Samples.declares (Samples.a_at 4 13); Samples.declares (Samples.a_at 2 9)]
                  (Samples.a_at 3 1))).
  apply perm_swap.
Defined.

Lemma find_first_undefined before use after :
  (forall earlier, In earlier before -> undefined_use earlier = false) ->
  undefined_use use = true ->
  find undefined_use (before ++ use :: after) = Some use.
Proof.
  intros Hbefore Huse. induction before as [|earlier before IH]; simpl.
  - now rewrite Huse.
  - rewrite (Hbefore earlier) by now left. apply IH.
    intros other Hin. apply Hbefore. now right.
Qed.

(** X3: the analysis stops at the first identifier use, in the order of the
    traversal, that is not visible: when every use before it is visible, the
    error raised is the one for that use, whatever comes after it. *)
Theorem first_undefined_use_reported
    (ast : AST) (before after : list (deque * Identifier))
    (scopes : deque) (identifier : Identifier) :
  program_uses false ast = before ++ (scopes, identifier) :: after ->
  (forall scopes' identifier',
      (scopes', identifier') ∈ before -> visible scopes' identifier') ->
  ~ visible scopes identifier ->
  analyze ast =
  Raise (TaipanSemanticError (location identifier)
           ("Identifier '" +:+ name identifier +:+ "' is not defined")).
Proof.
  intros Huses Hbefore Hundefined.
  rewrite analyze_spec, Huses. unfold first_undefined.
  rewrite (find_first_undefined before (scopes, identifier) after); [reflexivity| |].
  - intros [scopes' identifier'] Hin. apply list_elem_of_In, Hbefore in Hin.
    apply is_defined_visible in Hin. unfold undefined_use; simpl. now rewrite Hin.
  - now apply undefined_use_spec.
Qed.

Lemma first_undefined_use_reported_witness :
  analyze Samples.two_undeclared =
  Raise (TaipanSemanticError (Samples.at_line 2 11 1) "Identifier 'a' is not defined").
Proof.
  apply (first_undefined_use_reported Samples.two_undeclared
           [] [([∅], Samples.b_at 3 11)] [∅] (Samples.a_at 2 11)).
  - reflexivity.
  - intros scopes' identifier' Hin. apply list_elem_of_In in Hin. destruct Hin.
  - apply undefined_use_spec. vm_compute. reflexivity.
Defined.

Lemma analyze_raises_witness :
  exists scopes identifier,
    (scopes, identifier) ∈ program_uses false Samples.undeclared /\
    ~ visible scopes identifier /\
    TaipanSemanticError (Samples.at_line 2 11 1) "Identifier 'a' is not defined" =
    TaipanSemanticError (location identifier)
      ("Identifier '" +:+ name identifier +:+ "' is not defined").
Proof.
  apply (analyze_raises_only_undefined Samples.undeclared).
  vm_compute. reflexivity.
Defined.

Lemma all_statements_spec statements :
  Forall
    (fun statement =>
       forall symbol_tables,
         _analyze_statement statement symbol_tables =
         first_undefined (statement_uses false statement symbol_tables) symbol_tables)
    statements.
Proof. apply Forall_forall. intros statement _. apply analyze_statement_spec. Qed.

Lemma analyze_statements_spec statements symbol_tables :
  analyze_statements statements symbol_tables =
  first_undefined (statements_uses false statements symbol_tables) symbol_tables.
Proof. apply analyze_statements_case, all_statements_spec. Qed.

(** X5: pushes and pops are in lockstep: a statement, a block or a sequence
    of statements whose analysis completes leaves the deque exactly as it
    found it, and no [pop] ever meets an empty deque. *)
Theorem analysis_restores_deque (symbol_tables symbol_tables' : deque) :
  (forall statement,
      _analyze_statement statement symbol_tables = Ok symbol_tables' ->
      symbol_tables' = symbol_tables) /\
  (forall block,
      analyze_block block symbol_tables = Ok symbol_tables' ->
      symbol_tables' = symbol_tables) /\
  (forall statements,
      analyze_statements statements symbol_tables = Ok symbol_tables' ->
      symbol_tables' = symbol_tables) /\
  (forall statement, _analyze_statement statement symbol_tables <> Raise IndexError).
Proof.
  repeat split.
  - intros statement. rewrite analyze_statement_spec. unfold first_undefined.
    destruct (find undefined_use _); congruence.
  - intros block. rewrite analyze_block_spec. unfold first_undefined.
    destruct (find undefined_use _); congruence.
  - intros statements. rewrite analyze_statements_spec. unfold first_undefined.
    destruct (find undefined_use _); congruence.
  - intros statement. rewrite analyze_statement_spec. unfold first_undefined.
    destruct (find undefined_use _); discriminate.
Qed.

Lemma analysis_restores_deque_witness :
  [Samples.declares (Samples.a_at 2 9)] = [Samples.declares (Samples.a_at 2 9)].
Proof.
  apply (proj1 (analysis_restores_deque
                  [Samples.declares (Samples.a_at 2 9)]
                  [Samples.declares (Samples.a_at 2 9)])
           (BlockStatement (mkBlock [Samples.print_ (Samples.a_at 4 15)] ∅))).
  vm_compute. reflexivity.
Defined.

(** X6: the analysis of an expression depends on nothing but its
    identifiers and their order: operators, numbers and parentheses play no
    part, and two expressions with the same identifiers in the same order
    are accepted or rejected alike, with the same error. *)
Theorem analysis_reads_identifiers_only
    (symbol_tables : deque) (expression expression' : Expression) :
  expression_identifiers expression = expression_identifiers expression' ->
  _analyze_expression symbol_tables expression =
  _analyze_expression symbol_tables expression'.
Proof. intros Hsame. now rewrite !analyze_expression_spec, Hsame. Qed.

Lemma analysis_reads_identifiers_only_witness :
  _analyze_expression [∅]
    (ParentheseExpression
       (BinaryExpression (IdentifierExpression (Samples.a_at 2 2)) Samples.plus
          (Number 1))) =
  _analyze_expression [∅]
    (Comparison (Number 2) Samples.less (IdentifierExpression (Samples.a_at 2 2))).
Proof.
  apply (analysis_reads_identifiers_only [∅]
           (ParentheseExpression
              (BinaryExpression (IdentifierExpression (Samples.a_at 2 2)) Samples.plus
                 (Number 1)))
           (Comparison (Number 2) Samples.less (IdentifierExpression (Samples.a_at 2 2)))).
  reflexivity.
Defined.

Lemma erase_block_unfold statements symbol_table :
  erase_block (mkBlock statements symbol_table) =
  mkBlock (map erase_statement statements) symbol_table.
Proof.
  reflexivity.
Qed.

Lemma erased_uses :
  (forall statement scopes,
      statement_uses false (erase_statement statement) scopes =
      statement_uses false statement scopes) /\
  (forall block scopes,
      block_uses false (erase_block block) scopes = block_uses false block scopes).
Proof.
  assert (Hblock :
    forall statements symbol_table,
      Forall (fun statement => forall scopes,
                statement_uses false (erase_statement statement) scopes =
                statement_uses false statement scopes) statements ->
      forall scopes,
        block_uses false (erase_block (mkBlock statements symbol_table)) scopes =
        block_uses false (mkBlock statements symbol_table) scopes).
  { intros statements symbol_table Hall scopes.
    rewrite erase_block_unfold, !block_uses_unfold.
    generalize (scopes ++ [symbol_table]) as inner. intros inner.
    unfold statements_uses.
    induction Hall as [|statement statements Hstatement _ IH]; [reflexivity|].
    cbn [map flat_map]. now rewrite Hstatement, IH. }
  split.
  - apply (Statement_Block_ind
             (fun statement => forall scopes,
                statement_uses false (erase_statement statement) scopes =
                statement_uses false statement scopes)
             (fun block => forall scopes,
                block_uses false (erase_block block) scopes =
                block_uses false block scopes)); try exact Hblock; try reflexivity.
    + intros b Hb scopes. apply Hb.
    + intros c b Hb scopes.
      change (at_scopes scopes (expression_identifiers c)
              ++ block_uses false (erase_block b) scopes =
              at_scopes scopes (expression_identifiers c) ++ block_uses false b scopes).
      now rewrite Hb.
    + intros c b Hb scopes.
      change (at_scopes scopes (expression_identifiers c)
              ++ block_uses false (erase_block b) scopes =
              at_scopes scopes (expression_identifiers c) ++ block_uses false b scopes).
      now rewrite Hb.
    + intros i [e|] scopes; reflexivity.
  - apply (Block_Statement_ind
             (fun statement => forall scopes,
                statement_uses false (erase_statement statement) scopes =
                statement_uses false statement scopes)
             (fun block => forall scopes,
                block_uses false (erase_block block) scopes =
                block_uses false block scopes)); try exact Hblock; try reflexivity.
    + intros b Hb scopes. apply Hb.
    + intros c b Hb scopes.
      change (at_scopes scopes (expression_identifiers c)
              ++ block_uses false (erase_block b) scopes =
              at_scopes scopes (expression_identifiers c) ++ block_uses false b scopes).
      now rewrite Hb.
    + intros c b Hb scopes.
      change (at_scopes scopes (expression_identifiers c)
              ++ block_uses false (erase_block b) scopes =
              at_scopes scopes (expression_identifiers c) ++ block_uses false b scopes).
      now rewrite Hb.
    + intros i [e|] scopes; reflexivity.
Qed.

(** X7: the outcome of the analysis of a whole program, success or the
    error raised, is the same when every declaration initializer, at any
    depth of nesting, is removed from the program. *)
Theorem analysis_ignores_initializers (ast : AST) :
  analyze (erase_initializers ast) = analyze ast.
Proof.
  rewrite !analyze_spec. unfold program_uses, erase_initializers. simpl.
  now rewrite (proj2 erased_uses).
Qed.

End AnalyzerProperties.

(** ** More on the emitter *)

Module EmitterProperties.
Import Emitter Rendering Texts EmitterFacts.

Lemma emitter_eta self : mkEmitter (code self) (libraries self) = self.
Proof. now destruct self. Qed.

Section Services.

Variable str : float -> string.
Variable render : string -> kwargs -> string.
Variable walk : gset string -> list string.

(** Walking a set lists each of its members once. *)
Hypothesis walk_members : forall libraries, Permutation (walk libraries) (elements libraries).

Section Frame.

Let statement_spec (statement : Statement) : Prop :=
  forall self,
    emit_statement str render statement self =
    (text <- statement_text str render statement ;;
     Ok (mkEmitter (code self +:+ text) (libraries self ∪ statement_requires statement))).

Let block_spec (block : Block) : Prop :=
  forall self,
    emit_block str render block self =
    (text <- block_text str render block ;;
     Ok (mkEmitter (code self +:+ text) (libraries self ∪ block_requires block))).

Lemma emit_statements_frame statements :
  Forall statement_spec statements ->
  forall self,
    emit_statements str render statements self =
    (text <- statements_text str render statements ;;
     Ok (mkEmitter (code self +:+ text) (libraries self ∪ statements_requires statements))).
Proof.
  induction 1 as [|statement statements Hstatement _ IH]; intros self.
  - simpl. now rewrite append_empty_r, (right_id_L ∅ (∪)), emitter_eta.
  - cbn [emit_statements statements_text statements_requires]. rewrite Hstatement.
    destruct (statement_text str render statement) as [first|]; [|reflexivity].
    cbn [bind]. rewrite IH.
    destruct (statements_text str render statements) as [rest|]; [|reflexivity].
    cbn [bind code libraries].
    now rewrite append_assoc, (assoc_L (∪)).
Qed.

Lemma emit_block_frame statements symbol_table :
  Forall statement_spec statements -> block_spec (mkBlock statements symbol_table).
Proof. intros Hall self. apply (emit_statements_frame statements Hall). Qed.

Lemma emit_condition_frame keyword condition block self :
  block_spec block ->
  (self <- emit_expression str condition (write keyword self) ;;
   self <- emit_block str render block (write "){" self) ;;
   Ok (write "}" self)) =
  (text <- (c <- expression_text str condition ;;
            b <- block_text str render block ;;
            Ok (keyword +:+ c +:+ "){" +:+ b +:+ "}")) ;;
   Ok (mkEmitter (code self +:+ text) (libraries self ∪ block_requires block))).
Proof.
  intros Hblock. rewrite emit_expression_text.
  destruct (expression_text str condition) as [c|]; [|reflexivity].
  cbn [bind]. rewrite Hblock.
  destruct (block_text str render block) as [b|]; [|reflexivity].
  cbn [bind]. unfold write. cbn [code libraries].
  now rewrite !append_assoc.
Qed.

Lemma emit_simple_frame :
  (forall identifier, statement_spec (Input identifier)) /\
  (forall value, statement_spec (Print value)) /\
  (forall identifier expression, statement_spec (Assignment identifier expression)) /\
  (forall identifier expression, statement_spec (Declaration identifier expression)).
Proof.
  split; [|split; [|split]].
  - intros identifier self. simpl.
    now rewrite emit_function_input, function_requires_input.
  - intros [text|expression] self; simpl.
    + now rewrite emit_function_print, function_requires_print.
    + destruct (to_string str expression) as [value|]; [|reflexivity].
      simpl. now rewrite emit_function_print, function_requires_print.
  - intros identifier expression self. simpl. rewrite emit_expression_text.
    destruct (expression_text str expression) as [e|]; [|reflexivity].
    unfold emit_identifier, write. simpl. now rewrite ?append_assoc, (right_id_L ∅ (∪)).
  - intros identifier [expression|] self; simpl.
    + rewrite emit_expression_text.
      destruct (expression_text str expression) as [e|]; [|reflexivity].
      unfold emit_identifier, write. simpl. now rewrite ?append_assoc, (right_id_L ∅ (∪)).
    + unfold emit_identifier, write. simpl. now rewrite ?append_assoc, (right_id_L ∅ (∪)).
Qed.

Lemma emit_statement_frame statement : statement_spec statement.
Proof.
  destruct emit_simple_frame as (Hinput & Hprint & Hassignment & Hdeclaration).
  apply (Statement_Block_ind statement_spec block_spec);
    auto using emit_block_frame.
  - intros c b Hb self. now apply (emit_condition_frame "if(").
  - intros c b Hb self. now apply (emit_condition_frame "while(").
Qed.

Lemma emit_block_frame_all block : block_spec block.
Proof.
  destruct emit_simple_frame as (Hinput & Hprint & Hassignment & Hdeclaration).
  apply (Block_Statement_ind statement_spec block_spec);
    auto using emit_block_frame.
  - intros c b Hb self. now apply (emit_condition_frame "if(").
  - intros c b Hb self. now apply (emit_condition_frame "while(").
Qed.

End Frame.

Lemma renders_text statement text :
  renders str render statement text <-> statement_text str render statement = Ok text.
Proof.
  unfold renders. split.
  - intros Hrenders. specialize (Hrenders __init__).
    rewrite emit_statement_frame in Hrenders.
    destruct (statement_text str render statement) as [text'|]; [|discriminate].
    simpl in Hrenders. injection Hrenders as Hcode.
    change (text' = text) in Hcode. now subst.
  - intros Htext self. now rewrite emit_statement_frame, Htext.
Qed.

Lemma block_renders_text block text :
  block_renders str render block text <-> block_text str render block = Ok text.
Proof.
  unfold block_renders. split.
  - intros Hrenders. specialize (Hrenders __init__).
    rewrite emit_block_frame_all in Hrenders.
    destruct (block_text str render block) as [text'|]; [|discriminate].
    simpl in Hrenders. injection Hrenders as Hcode.
    change (text' = text) in Hcode. now subst.
  - intros Htext self. now rewrite emit_block_frame_all, Htext.
Qed.

(** X8: what a statement emits does not depend on what was emitted before
    it. If its emission completes from one state, then from every state it
    appends one and the same text to the code and adds the libraries of its
    builtin statements; if it raises from one state, it raises the same
    exception from every state. Code already emitted is never changed. *)
Theorem emission_independent_of_state (statement : Statement) (self : Emitter) :
  (forall self',
      emit_statement str render statement self = Ok self' ->
      exists text,
        renders str render statement text /\
        self' = mkEmitter (code self +:+ text)
                          (libraries self ∪ statement_requires statement)) /\
  (forall e,
      emit_statement str render statement self = Raise e ->
      forall other, emit_statement str render statement other = Raise e).
Proof.
  split.
  - intros self'. rewrite emit_statement_frame.
    destruct (statement_text str render statement) as [text|] eqn:Htext; [|discriminate].
    simpl. intros [= <-]. exists text. split; [now apply renders_text | reflexivity].
  - intros e. rewrite emit_statement_frame.
    destruct (statement_text str render statement) as [text|] eqn:Htext; [discriminate|].
    simpl. intros [= <-] other. now rewrite emit_statement_frame, Htext.
Qed.

Lemma emit_statements_app statements1 statements2 self :
  emit_statements str render (statements1 ++ statements2) self =
  (self <- emit_statements str render statements1 self ;;
   emit_statements str render statements2 self).
Proof.
  revert self. induction statements1 as [|statement statements1 IH]; intros self;
    [reflexivity|].
  cbn [app emit_statements].
  destruct (emit_statement str render statement self) as [self1|]; [|reflexivity].
  cbn [bind]. apply IH.
Qed.

(** X9: a block is emitted as its statements one after another, and a block
    nested as a statement is emitted as if its statements stood directly in
    the enclosing block: no braces are written for it, and its symbol table
    plays no part. *)
Theorem nested_block_flattened
    (inner rest : list Statement) (symbol_table : SymbolTable) (self : Emitter) :
  emit_statements str render (BlockStatement (mkBlock inner symbol_table) :: rest) self =
    emit_statements str render (inner ++ rest) self /\
  emit_block str render (mkBlock (inner ++ rest) symbol_table) self =
    (self <- emit_block str render (mkBlock inner symbol_table) self ;;
     emit_block str render (mkBlock rest symbol_table) self).
Proof.
  split.
  - rewrite emit_statements_app. reflexivity.
  - apply emit_statements_app.
Qed.

(** X10: an If is emitted as [if(], the text of the condition, [){], the
    text of the body and [}]; a While likewise with [while(]. The braces and
    parentheses are the only text the emitter adds. *)
Theorem conditional_shape (condition : Expression) (block : Block) (text : string) :
  (renders str render (If condition block) text <->
   exists c b,
     emits str condition c /\ block_renders str render block b /\
     text = "if(" +:+ c +:+ "){" +:+ b +:+ "}") /\
  (renders str render (While condition block) text <->
   exists c b,
     emits str condition c /\ block_renders str render block b /\
     text = "while(" +:+ c +:+ "){" +:+ b +:+ "}").
Proof.
  split; rewrite renders_text; simpl; (split;
    [ intros Htext;
      destruct (expression_text str condition) as [c|] eqn:Hc; [|discriminate];
      destruct (block_text str render block) as [b|] eqn:Hb; [|discriminate];
      injection Htext as <-; exists c, b;
      split; [now apply emits_text|]; split; [now apply block_renders_text | reflexivity]
    | intros (c & b & Hc & Hb & ->);
      apply emits_text in Hc; apply block_renders_text in Hb;
      now rewrite Hc, Hb ]).
Qed.

(** X11: an Assignment is emitted as the name of the target, [=], the text
    of the expression and [;]. *)
Theorem assignment_shape
    (identifier : Identifier) (expression : Expression) (text : string) :
  renders str render (Assignment identifier expression) text <->
  exists e, emits str expression e /\ text = name identifier +:+ "=" +:+ e +:+ ";".
Proof.
  rewrite renders_text. simpl. split.
  - intros Htext. destruct (expression_text str expression) as [e|] eqn:He; [|discriminate].
    injection Htext as <-. exists e. split; [now apply emits_text | reflexivity].
  - intros (e & He & ->). apply emits_text in He. now rewrite He.
Qed.

(** X12: the builtin statements are rendered through the templates of the
    registry. An Input appends the rendering of [input.j2] with the name of
    its target bound to [identifier]; a Print of a string literal appends
    the rendering of [print.j2] with the raw string bound to [value] and
    [is_number] false; a Print of an expression binds the flattened text and
    [is_number] true, and raises what the flattening raises. Each adds
    [stdio.h] to the libraries. *)
Theorem builtin_statements_rendered
    (identifier : Identifier) (text : string) (expression : Expression)
    (self : Emitter) :
  emit_statement str render (Input identifier) self =
    Ok (mkEmitter
          (code self +:+ render "input.j2" [("identifier", StrValue (name identifier))])
          (libraries self ∪ {["stdio.h"]})) /\
  emit_statement str render (Print (String_ text)) self =
    Ok (mkEmitter
          (code self +:+
           render "print.j2" [("value", StrValue text); ("is_number", BoolValue false)])
          (libraries self ∪ {["stdio.h"]})) /\
  (forall value,
      to_string str expression = Ok value ->
      emit_statement str render (Print (Expression_ expression)) self =
      Ok (mkEmitter
            (code self +:+
             render "print.j2" [("value", StrValue value); ("is_number", BoolValue true)])
            (libraries self ∪ {["stdio.h"]}))) /\
  (forall e,
      to_string str expression = Raise e ->
      emit_statement str render (Print (Expression_ expression)) self = Raise e).
Proof.
  split; [|split; [|split]].
  - simpl. apply emit_function_input.
  - simpl. apply emit_function_print.
  - intros value Hvalue. simpl. rewrite Hvalue. simpl. apply emit_function_print.
  - intros e He. simpl. now rewrite He.
Qed.

Lemma FUNCTION_MAPPING_other name :
  name <> "print" -> name <> "input" -> FUNCTION_MAPPING !! name = None.
Proof.
  intros Hprint Hinput. unfold FUNCTION_MAPPING, FUNCTIONS. cbn [foldl function_name].
  rewrite lookup_insert_ne by congruence.
  rewrite lookup_insert_ne by congruence.
  apply lookup_empty.
Qed.

(** X13: [emit_function] knows the two names of the registry and no other:
    it completes for [print] and [input], keeping the libraries that were
    there and adding [stdio.h], and raises [KeyError] with the name for any
    other name. *)
Theorem emit_function_registry (name : string) (arguments : kwargs) (self : Emitter) :
  (name = "print" \/ name = "input" ->
   exists self',
     emit_function render name arguments self = Ok self' /\
     libraries self ⊆ libraries self' /\
     libraries self' = libraries self ∪ {["stdio.h"]}) /\
  (name <> "print" -> name <> "input" ->
   emit_function render name arguments self = Raise (KeyError name)).
Proof.
  split.
  - intros [-> | ->]; eexists; (split; [first [apply emit_function_print
                                              | apply emit_function_input]|]);
      simpl; (split; [apply union_subseteq_l | reflexivity]).
  - intros Hprint Hinput. unfold emit_function.
    now rewrite FUNCTION_MAPPING_other.
Qed.

Lemma expression_text_raises node e :
  expression_text str node = Raise e -> e = AssertionError.
Proof.
  induction node as [v|i|o n IH|l IHl o r IHr|l IHl o r IHr|n IH]; simpl;
    try discriminate.
  - destruct (expression_text str n); [discriminate|]. simpl. intros [= <-]. now apply IH.
  - destruct (expression_text str l); simpl; [|intros [= <-]; now apply IHl].
    destruct (expression_text str r); simpl; [discriminate|]. intros [= <-]. now apply IHr.
  - destruct (expression_text str l); simpl; [|intros [= <-]; now apply IHl].
    destruct (expression_text str r); simpl; [discriminate|]. intros [= <-]. now apply IHr.
  - now intros [= <-].
Qed.

Lemma to_string_raises node e :
  to_string str node = Raise e -> e = AssertionError \/ e = IndexError.
Proof.
  induction node as [v|i|o n IH|l IHl o r IHr|l IHl o r IHr|n IH]; simpl;
    try discriminate.
  - destruct (to_string str n) as [[|first rest]|]; simpl.
    + intros [= <-]. now right.
    + discriminate.
    + intros [= <-]. now apply IH.
  - destruct (to_string str l); simpl; [|intros [= <-]; now apply IHl].
    destruct (to_string str r); simpl; [discriminate|]. intros [= <-]. now apply IHr.
  - intros [= <-]. now left.
  - intros [= <-]. now left.
Qed.

Section Exceptions.

Let statement_spec (statement : Statement) : Prop :=
  forall e, statement_text str render statement = Raise e ->
            e = AssertionError \/ e = IndexError.

Let block_spec (block : Block) : Prop :=
  forall e, block_text str render block = Raise e ->
            e = AssertionError \/ e = IndexError.

Lemma condition_text_raises keyword condition block e :
  block_spec block ->
  (c <- expression_text str condition ;;
   b <- block_text str render block ;;
   Ok (keyword +:+ c +:+ "){" +:+ b +:+ "}")) = Raise e ->
  e = AssertionError \/ e = IndexError.
Proof.
  intros Hblock.
  destruct (expression_text str condition) eqn:Hc; simpl.
  - destruct (block_text str render block) eqn:Hb; simpl; [discriminate|].
    intros [= <-]. now apply Hblock.
  - intros [= <-]. left. now apply (expression_text_raises condition).
Qed.

Lemma block_text_raises block : block_spec block.
Proof.
  apply (Block_Statement_ind statement_spec block_spec).
  - intros statements symbol_table Hall e.
    change (block_text str render (mkBlock statements symbol_table))
      with (statements_text str render statements).
    induction Hall as [|statement statements Hstatement _ IH]; simpl; [discriminate|].
    destruct (statement_text str render statement) eqn:Hfirst; simpl.
    + destruct (statements_text str render statements); simpl; [discriminate|].
      intros [= <-]. now apply IH.
    + intros [= <-]. now apply Hstatement.
  - intros b Hb e. apply Hb.
  - intros c b Hb e. now apply (condition_text_raises "if(").
  - intros c b Hb e. now apply (condition_text_raises "while(").
  - intros i e. discriminate.
  - intros [text|expression] e; simpl; [discriminate|].
    destruct (to_string str expression) eqn:Hvalue; simpl; [discriminate|].
    intros [= <-]. now apply (to_string_raises expression).
  - intros i expression e. simpl.
    destruct (expression_text str expression) eqn:Htext; simpl; [discriminate|].
    intros [= <-]. left. now apply (expression_text_raises expression).
  - intros i [expression|] e; simpl; [|discriminate].
    destruct (expression_text str expression) eqn:Htext; simpl; [discriminate|].
    intros [= <-]. left. now apply (expression_text_raises expression).
Qed.

End Exceptions.

(** X14: of the exceptions of the model, the only ones the emission of a
    program raises are [AssertionError], for a node without a case, and
    [IndexError], for the first character of an empty text; never a
    [KeyError] from the registry, and never one of the compiler's own
    errors. What the interpreter raises at its own limits (recursion depth,
    memory) and what the template engine raises are outside the model. *)
Theorem emitter_exceptions (node : Program) (self : Emitter) (e : Exception) :
  emit_program str render walk node self = Raise e ->
  e = AssertionError \/ e = IndexError.
Proof.
  unfold emit_program. rewrite emit_block_frame_all.
  destruct (block_text str render (block node)) as [text|e'] eqn:Htext; simpl;
    [discriminate|].
  intros [= <-]. now apply (block_text_raises (block node)).
Qed.

Section Required.

Let statement_spec (statement : Statement) : Prop :=
  statement_requires statement =
  if statement_calls_builtin statement then {["stdio.h"]} else ∅.

Let block_spec (block : Block) : Prop :=
  block_requires block = if block_calls_builtin block then {["stdio.h"]} else ∅.

Lemma block_requires_stdio block : block_spec block.
Proof.
  apply (Block_Statement_ind statement_spec block_spec).
  - intros statements symbol_table Hall. unfold block_spec.
    change (block_requires (mkBlock statements symbol_table))
      with (statements_requires statements).
    change (block_calls_builtin (mkBlock statements symbol_table))
      with (statements_call_builtin statements).
    induction Hall as [|statement statements Hstatement _ IH]; [reflexivity|].
    cbn [statements_requires statements_call_builtin].
    rewrite Hstatement, IH.
    destruct (statement_calls_builtin statement), (statements_call_builtin statements);
      cbn [orb].
    + apply (idemp_L (∪)).
    + apply (right_id_L ∅ (∪)).
    + apply (left_id_L ∅ (∪)).
    + apply (left_id_L ∅ (∪)).
  - intros b Hb. exact Hb.
  - intros c b Hb. exact Hb.
  - intros c b Hb. exact Hb.
  - intros i. apply function_requires_input.
  - intros v. apply function_requires_print.
  - intros i e. reflexivity.
  - intros i e. reflexivity.
Qed.

End Required.

Lemma emit_header_libraries self : libraries (emit_header walk self) = libraries self.
Proof.
  unfold emit_header. generalize (walk (libraries self)) as order.
  intros order. revert self.
  induction order as [|library order IH]; intros self; [reflexivity|].
  simpl. now rewrite IH.
Qed.

Lemma walk_empty : walk ∅ = [].
Proof.
  apply Permutation_nil. symmetry. rewrite <- (elements_empty (C:=gset string)).
  apply walk_members.
Qed.

Lemma walk_singleton library : walk {[library]} = [library].
Proof.
  apply Permutation_length_1_inv. symmetry.
  rewrite <- (elements_singleton (C:=gset string) library). apply walk_members.
Qed.

(** X15: the text of an emitted program is fixed by the program alone: with
    a builtin statement somewhere in it, the one directive
    [#include<stdio.h>] on a line of its own, and no directive otherwise;
    then [int main(){], the text of the root block, [return 0;}] and a line
    feed. The set of libraries never holds anything but [stdio.h], so the
    order in which a set is walked cannot show in the output. *)
Theorem emitted_text_determined (node : Program) (self : Emitter) :
  emit_program str render walk node __init__ = Ok self ->
  exists body,
    block_renders str render (block node) body /\
    libraries self =
      (if block_calls_builtin (block node) then {["stdio.h"]} else ∅) /\
    code self =
      (if block_calls_builtin (block node)
       then "#include<stdio.h>" +:+ newline
       else "")
      +:+ "int main(){" +:+ body +:+ "return 0;}" +:+ newline.
Proof.
  unfold emit_program. rewrite emit_block_frame_all.
  destruct (block_text str render (block node)) as [body|] eqn:Hbody; [|discriminate].
  simpl. intros [= <-]. exists body.
  split; [now apply block_renders_text|].
  rewrite emit_header_libraries, (emit_header_code walk). simpl.
  rewrite (left_id_L ∅ (∪)), block_requires_stdio.
  destruct (block_calls_builtin (block node)).
  - split; [reflexivity|]. now rewrite walk_singleton.
  - split; [reflexivity|]. now rewrite walk_empty.
Qed.

Lemma to_string_expression_text node :
  flattenable node = true -> unary_free node = true ->
  to_string str node = expression_text str node.
Proof.
  induction node as [v|i|o n IH|l IHl o r IHr|l IHl o r IHr|n IH]; simpl;
    try discriminate; try reflexivity.
  intros [Hl Hr]%andb_true_iff [Hul Hur]%andb_true_iff.
  now rewrite IHl, IHr.
Qed.

(** X16: for an expression made of numbers, identifiers and binary
    operators only, the text that a Print flattens it to is the very text
    the emitter would emit for it. *)
Theorem flattening_agrees_with_emission (node : Expression) (text : string) :
  flattenable node = true -> unary_free node = true ->
  (to_string str node = Ok text <-> emits str node text).
Proof.
  intros Hflat Hfree. now rewrite emits_text, to_string_expression_text.
Qed.

(** X17: when no float prints as the empty text, the flattening of an
    expression whose identifiers have non-empty names completes exactly on
    the expressions made of numbers, identifiers, binary and unary
    operators, and its text then has at least one character; so on those
    expressions the first character a unary operator asks for is there. *)
Theorem to_string_defined_iff_flattenable (node : Expression) :
  (forall value, str value <> "") ->
  named node = true ->
  (flattenable node = true <->
   exists first rest, to_string str node = Ok (String first rest)).
Proof.
  intros Hstr Hnamed. split.
  - intros Hflat. now apply to_string_defined.
  - intros (first & rest & Htext). now apply (to_string_flattenable str node _ Htext).
Qed.

Lemma expression_text_defined node :
  has_parenthese node = false -> exists text, expression_text str node = Ok text.
Proof.
  induction node as [v|i|o n IH|l IHl o r IHr|l IHl o r IHr|n IH]; simpl;
    try discriminate; eauto.
  - intros Hn. destruct (IH Hn) as [text ->]. simpl. eauto.
  - intros [Hl Hr]%orb_false_iff.
    destruct (IHl Hl) as [tl ->]. destruct (IHr Hr) as [tr ->]. simpl. eauto.
  - intros [Hl Hr]%orb_false_iff.
    destruct (IHl Hl) as [tl ->]. destruct (IHr Hr) as [tr ->]. simpl. eauto.
Qed.

Lemma expression_text_undefined node :
  has_parenthese node = true -> expression_text str node = Raise AssertionError.
Proof.
  induction node as [v|i|o n IH|l IHl o r IHr|l IHl o r IHr|n IH]; simpl;
    try discriminate; try reflexivity.
  - intros Hn. now rewrite IH.
  - destruct (has_parenthese l) eqn:Hl; simpl; [intros _; now rewrite IHl|].
    intros Hr. destruct (expression_text_defined l Hl) as [tl ->]. simpl.
    now rewrite IHr.
  - destruct (has_parenthese l) eqn:Hl; simpl; [intros _; now rewrite IHl|].
    intros Hr. destruct (expression_text_defined l Hl) as [tl ->]. simpl.
    now rewrite IHr.
Qed.

(** X18: the emitter has no case for a ParentheseExpression. An expression
    without one is always emitted; an expression with one anywhere inside,
    under whatever operators, makes [emit] fail its assertion, from any
    state. *)
Theorem parentheses_not_emitted (node : Expression) :
  (has_parenthese node = false -> exists text, emits str node text) /\
  (has_parenthese node = true ->
   forall self, emit_expression str node self = Raise AssertionError).
Proof.
  split.
  - intros Hnone. destruct (expression_text_defined node Hnone) as [text Htext].
    exists text. now apply emits_text.
  - intros Hsome self.
    now rewrite emit_expression_text, expression_text_undefined.
Qed.

(** X19: [emit_header] touches nothing but the front of the code: the
    libraries stay as they are; in front of the code that was there it puts
    one directive for each library, each library once, in the order in
    which the set happens to be walked (most recent first); and with no
    library nothing changes at all. *)
Theorem emit_header_prefixes (self : Emitter) :
  libraries (emit_header walk self) = libraries self /\
  (exists order,
      Permutation order (elements (libraries self)) /\
      code (emit_header walk self) = directives order +:+ code self) /\
  (libraries self = ∅ -> emit_header walk self = self).
Proof.
  split; [apply emit_header_libraries|]. split.
  - exists (rev (walk (libraries self))). split; [|apply (emit_header_code walk)].
    rewrite <- (walk_members (libraries self)). symmetry. apply Permutation_rev.
  - intros Hnone. unfold emit_header. now rewrite Hnone, walk_empty.
Qed.

End Services.

Lemma emission_independent_of_state_witness :
  exists text,
    renders Samples.sample_str Samples.sample_render
      (Declaration (Samples.a_at 2 9) (Some (Number 1))) text /\
    mkEmitter "double a=1.0;" ∅ =
    mkEmitter ("" +:+ text)
      (∅ ∪ statement_requires (Declaration (Samples.a_at 2 9) (Some (Number 1)))).
Proof.
  apply (proj1 (emission_independent_of_state Samples.sample_str Samples.sample_render
                  (Declaration (Samples.a_at 2 9) (Some (Number 1))) __init__)).
  vm_compute. reflexivity.
Defined.

Lemma conditional_shape_witness :
  renders Samples.sample_str Samples.sample_render
    (If (Comparison (IdentifierExpression (Samples.a_at 2 4)) Samples.less
           (IdentifierExpression (Samples.b_at 2 8)))
        (mkBlock [Assignment (Samples.a_at 3 5) (IdentifierExpression (Samples.b_at 3 9))] ∅))
    ("if(" +:+ "a<b" +:+ "){" +:+ "a=b;" +:+ "}").
Proof.
  apply (proj2 (proj1 (conditional_shape Samples.sample_str Samples.sample_render
                         (Comparison (IdentifierExpression (Samples.a_at 2 4)) Samples.less
                            (IdentifierExpression (Samples.b_at 2 8)))
                         (mkBlock [Assignment (Samples.a_at 3 5)
                                     (IdentifierExpression (Samples.b_at 3 9))] ∅)
                         ("if(" +:+ "a<b" +:+ "){" +:+ "a=b;" +:+ "}")))).
  exists "a<b", "a=b;". split; [|split].
  - apply emits_text. reflexivity.
  - apply block_renders_text. reflexivity.
  - reflexivity.
Defined.

Lemma assignment_shape_witness :
  renders Samples.sample_str Samples.sample_render
    (Assignment (Samples.a_at 3 5)
       (BinaryExpression (IdentifierExpression (Samples.b_at 3 9)) Samples.plus (Number 1)))
    ("a" +:+ "=" +:+ "b+1.0" +:+ ";").
Proof.
  apply (proj2 (assignment_shape Samples.sample_str Samples.sample_render
                  (Samples.a_at 3 5)
                  (BinaryExpression (IdentifierExpression (Samples.b_at 3 9)) Samples.plus
                     (Number 1))
                  ("a" +:+ "=" +:+ "b+1.0" +:+ ";"))).
  exists "b+1.0". split; [|reflexivity].
  apply emits_text. reflexivity.
Defined.

Lemma builtin_statements_rendered_witness :
  emit_statement Samples.sample_str Samples.sample_render
    (Print (Expression_ (IdentifierExpression (Samples.a_at 3 7)))) __init__ =
  Ok (mkEmitter
        ("" +:+
         Samples.sample_render "print.j2"
           [("value", StrValue "a"); ("is_number", BoolValue true)])
        (∅ ∪ {["stdio.h"]})).
Proof.
  apply (proj1 (proj2 (proj2 (builtin_statements_rendered
                                Samples.sample_str Samples.sample_render
                                (Samples.a_at 2 7) "a"
                                (IdentifierExpression (Samples.a_at 3 7)) __init__)))).
  reflexivity.
Defined.

Lemma emit_function_registry_witness :
  emit_function Samples.sample_render "exit" [] __init__ = Raise (KeyError "exit").
Proof.
  apply (proj2 (emit_function_registry Samples.sample_render "exit" [] __init__));
    discriminate.
Defined.

Lemma emitter_exceptions_witness : AssertionError = AssertionError \/ AssertionError = IndexError.
Proof.
  apply (emitter_exceptions Samples.sample_str Samples.sample_render Samples.sample_walk
           Samples.print_parenthese __init__).
  vm_compute. reflexivity.
Defined.

Lemma emitted_text_determined_witness :
  exists body,
    block_renders Samples.sample_str Samples.sample_render (block Samples.builtins) body /\
    libraries
      (mkEmitter
         ("#include<stdio.h>" +:+ newline +:+
          "int main(){input.j2(a);print.j2(a);print.j2(a);return 0;}" +:+ newline)
         {["stdio.h"]}) =
      (if block_calls_builtin (block Samples.builtins) then {["stdio.h"]} else ∅) /\
    code
      (mkEmitter
         ("#include<stdio.h>" +:+ newline +:+
          "int main(){input.j2(a);print.j2(a);print.j2(a);return 0;}" +:+ newline)
         {["stdio.h"]}) =
      (if block_calls_builtin (block Samples.builtins)
       then "#include<stdio.h>" +:+ newline
       else "")
      +:+ "int main(){" +:+ body +:+ "return 0;}" +:+ newline.
Proof.
  apply (emitted_text_determined Samples.sample_str Samples.sample_render
           Samples.backward_walk
           (fun libraries => Permutation_sym (Permutation_rev (elements libraries)))
           Samples.builtins
           (mkEmitter
              ("#include<stdio.h>" +:+ newline +:+
               "int main(){input.j2(a);print.j2(a);print.j2(a);return 0;}" +:+ newline)
              {["stdio.h"]})).
  vm_compute. reflexivity.
Defined.

Lemma flattening_agrees_with_emission_witness :
  emits Samples.sample_str
    (BinaryExpression (IdentifierExpression (Samples.a_at 2 7)) Samples.plus
       (IdentifierExpression (Samples.b_at 2 9))) "a+b".
Proof.
  apply (proj1 (flattening_agrees_with_emission Samples.sample_str
                  (BinaryExpression (IdentifierExpression (Samples.a_at 2 7)) Samples.plus
                     (IdentifierExpression (Samples.b_at 2 9))) "a+b"
                  eq_refl eq_refl)).
  reflexivity.
Defined.

Lemma to_string_defined_iff_flattenable_witness :
  exists first rest,
    to_string Samples.sample_str
      (UnaryExpression Samples.minus (UnaryExpression Samples.minus (Number 1))) =
    Ok (String first rest).
Proof.
  apply (proj1 (to_string_defined_iff_flattenable Samples.sample_str
                  (UnaryExpression Samples.minus (UnaryExpression Samples.minus (Number 1)))
                  ltac:(intros value; discriminate) eq_refl)).
  reflexivity.
Defined.

Lemma parentheses_not_emitted_witness :
  emit_expression Samples.sample_str
    (BinaryExpression (IdentifierExpression (Samples.a_at 2 7)) Samples.plus
       (ParentheseExpression (Number 1))) __init__ =
  Raise AssertionError.
Proof.
  apply (proj2 (parentheses_not_emitted Samples.sample_str
                  (BinaryExpression (IdentifierExpression (Samples.a_at 2 7)) Samples.plus
                     (ParentheseExpression (Number 1))))).
  reflexivity.
Defined.

Lemma emit_header_prefixes_witness :
  exists order,
    Permutation order
      (elements (libraries (mkEmitter "int main(){return 0;}" {["stdio.h"; "math.h"]}))) /\
    code (emit_header Samples.backward_walk
            (mkEmitter "int main(){return 0;}" {["stdio.h"; "math.h"]})) =
    directives order +:+
    code (mkEmitter "int main(){return 0;}" {["stdio.h"; "math.h"]}).
Proof.
  exact (proj1 (proj2 (emit_header_prefixes Samples.backward_walk
                         (fun libraries =>
                            Permutation_sym (Permutation_rev (elements libraries)))
                         (mkEmitter "int main(){return 0;}" {["stdio.h"; "math.h"]})))).
Defined.

End EmitterProperties.
